(** * AmxxBuilder: build orchestration of node-amxxpack

    A shallow embedding of [src/builder/builder.ts] and the properties of
    its batch build: aggregation of per-file results, abort policy,
    sequential processing of the matches, routing of compiler diagnostics
    and placement of the produced files.

    The builder talks to collaborators that are not part of the class: the
    Node [path] and [fs] modules, [mkdirp], [globule], the [amxxpc] wrapper,
    the logger.  They are gathered in the [Host] interface; every theorem
    holds for an arbitrary host, and a small POSIX-like host with a fake
    compiler exercises the theorems on concrete inputs.  The watch mode and
    [findPlugins] play no part in the batch build and are left out. *)

From Stdlib Require Import String Ascii List Bool ZArith Lia DecimalString.
Import ListNotations.
Open Scope string_scope.

(** ** Values exchanged with the collaborators *)

(** A JavaScript [Error]; only its message is observed. *)
Record JsError := mkError { message : string }.

(** A settled promise: fulfilled with a value or rejected with an error. *)
Inductive Result (A : Type) :=
| Ok (value : A)
| Throw (err : JsError).
Arguments Ok {A} value.
Arguments Throw {A} err.

Definition is_ok {A} (r : Result A) : bool :=
  match r with Ok _ => true | Throw _ => false end.

(** Modelled from the spec: the enum [AMXPCMessageType] is declared in
    [./amxxpc], which is not among the sources; the spec lists its four
    severities. *)
Inductive AMXPCMessageType := Echo | Error | Warning | FatalError.

Definition AMXPCMessageType_eqb (a b : AMXPCMessageType) : bool :=
  match a, b with
  | Echo, Echo | Error, Error | Warning, Warning | FatalError, FatalError => true
  | _, _ => false
  end.

(** Modelled from the spec: the message record of [./amxxpc] (DiagnosticMessage
    in the spec); [code], [filename] and [startLine] may be absent. *)
Record AMXPCMessage := {
  startLine : option Z;
  type : AMXPCMessageType;
  code : option string;
  text : string;
  filename : option string
}.

Record AMXPCOutput := { messages : list AMXPCMessage }.

(** Modelled from the spec: the result record of [./amxxpc] (CompileResult). *)
Record AMXPCResult := {
  success : bool;
  plugin : string;
  error : option string;
  output : AMXPCOutput
}.

(** The argument object handed to [amxxpc]. *)
Record AMXPCOptions := {
  path : string;
  dest : string;
  compiler : string;
  includeDir : list string
}.

(** [src/types/index.ts], the fields the builder reads. *)
Record IProjectInput := { in_scripts : string; in_include : string; in_assets : string }.
Record IProjectOutput := {
  out_scripts : string; out_plugins : string; out_include : string; out_assets : string
}.
Record IProjectCompiler := { dir : string; executable : string }.
Record IProjectRules := { flatCompilation : bool }.
Record IProjectConfig := {
  input : IProjectInput;
  output_ : IProjectOutput;
  compiler_ : IProjectCompiler;
  include : list string;
  rules : IProjectRules
}.

(** [BuildOptions]: the flag is optional. *)
Record BuildOptions := { ignoreErrors : option bool }.

(** JavaScript truthiness of the values the builder tests with [!]. *)
Definition truthy_flag (b : option bool) : bool :=
  match b with Some true => true | _ => false end.

Definition truthy_string (s : string) : bool :=
  match s with EmptyString => false | _ => true end.

(** [string | string[]], the type of [buildDir]'s first parameter, and
    lodash's [castArray] on it. *)
Inductive StringOrArray := Str (s : string) | Arr (l : list string).

Definition castArray (v : StringOrArray) : list string :=
  match v with Str s => [s] | Arr l => l end.

(** ** Observable events *)

Inductive LogLevel := LInfo | LSuccess | LWarn | LError | LDebug.

(** An argument of a logger call. *)
Inductive LogArg :=
| AStr (s : string)
| AType (t : AMXPCMessageType)
| ANull.

Definition opt_arg (s : option string) : LogArg :=
  match s with Some s' => AStr s' | None => ANull end.

(** What a run does, in order.  Calls to the host carry their arguments and
    the way they settled.  [EvInvoke] records that [buildDir] called its
    callback on a match; it has no effect on the host. *)
Inductive Event :=
| EvLog (level : LogLevel) (args : list LogArg)
| EvMkdirp (d : string) (r : Result unit)
| EvCopyFile (src dst : string) (mode : option nat) (r : Result unit)
| EvAmxxpc (opts : AMXPCOptions) (r : Result AMXPCResult)
| EvInvoke (filePath : string).

(** [path.parse(p)]: the two fields the builder reads. *)
Record ParsedPath := { pdir : string; pbase : string }.

(** ** The collaborators *)

Class Host := {
  World : Type;
  (* Node's path module, process.cwd(), normalize-path *)
  cwd : string;
  path_resolve : string -> string;
  path_join : string -> string -> string;
  path_parse : string -> ParsedPath;
  path_relative : string -> string -> string;
  normalizePath : string -> string;
  (* whether the first directory is an ancestor of the second path *)
  is_ancestor : string -> string -> bool;
  (* ./constants *)
  ASSETS_PATH_PATTERN : string;
  INCLUDE_PATH_PATTERN : string;
  SCRIPTS_PATH_PATTERN : string;
  (* globule.find(patterns, { nodir: true }) *)
  globule_find : list string -> World -> list string;
  (* mkdirp(dir), fs.promises.copyFile(src, dest[, mode]), amxxpc(options) *)
  mkdirp : string -> World -> Result unit * World;
  copyFile : string -> string -> option nat -> World -> Result unit * World;
  amxxpc : AMXPCOptions -> World -> Result AMXPCResult * World
}.

(** ** The monad of asynchronous code

    An [async] function is a function from the captured mutable variables
    [L] and the world to the way it settles, the new variables and world,
    and the events it produced.  [await] is [bind]. *)

Record Outcome `{Host} (L A : Type) := mkOutcome {
  result : Result A;
  locals : L;
  world : World;
  trace : list Event
}.
Arguments mkOutcome {_ L A}.
Arguments result {_ L A}.
Arguments locals {_ L A}.
Arguments world {_ L A}.
Arguments trace {_ L A}.

Definition M `{Host} (L A : Type) : Type := L -> World -> Outcome L A.

Section Monad.
Context `{Host}.

Definition ret {L A} (a : A) : M L A :=
  fun l w => mkOutcome (Ok a) l w [].

Definition throw {L A} (e : JsError) : M L A :=
  fun l w => mkOutcome (Throw e) l w [].

Definition bind {L A B} (m : M L A) (f : A -> M L B) : M L B :=
  fun l w =>
    let o := m l w in
    match result o with
    | Ok a =>
        let o' := f a (locals o) (world o) in
        mkOutcome (result o') (locals o') (world o') (trace o ++ trace o')
    | Throw e => mkOutcome (Throw e) (locals o) (world o) (trace o)
    end.

(** [try { body } catch (err) { handler }] *)
Definition try_catch {L A} (body : M L A) (handler : JsError -> M L A) : M L A :=
  fun l w =>
    let o := body l w in
    match result o with
    | Ok a => o
    | Throw e =>
        let o' := handler e (locals o) (world o) in
        mkOutcome (result o') (locals o') (world o') (trace o ++ trace o')
    end.

(** [promise.then(onFulfilled)]: a rejection passes through. *)
Definition then_ {L A B} (acc : M L A) (onFulfilled : A -> M L B) : M L B :=
  bind acc onFulfilled.

Definition emit {L} (e : Event) : M L unit :=
  fun l w => mkOutcome (Ok tt) l w [e].

(** A call to the host; [ev] builds the event from the way it settled. *)
Definition host_call {L A} (op : World -> Result A * World)
    (ev : Result A -> Event) : M L A :=
  fun l w => let '(r, w') := op w in mkOutcome r l w' [ev r].

(** Reading the world without changing it. *)
Definition host_read {L A} (f : World -> A) : M L A :=
  fun l w => mkOutcome (Ok (f w)) l w [].

(** A method of the class captures no variable; inside a closure that does,
    it runs without touching them. *)
Definition lift {L A} (m : M unit A) : M L A :=
  fun l w => let o := m tt w in mkOutcome (result o) l (world o) (trace o).

(** [let x = init; ...]: the body runs with a fresh variable [x]. *)
Definition let_mut {L V A} (init : V) (body : M V A) : M L A :=
  fun l w => let o := body init w in mkOutcome (result o) l (world o) (trace o).

Definition get_var {V} : M V V := fun v w => mkOutcome (Ok v) v w [].
Definition set_var {V} (v : V) : M V unit := fun _ w => mkOutcome (Ok tt) v w [].

(** Every event the computation can produce satisfies [P]. *)
Definition emits {L A} (P : Event -> Prop) (m : M L A) : Prop :=
  forall l w, Forall P (trace (m l w)).

End Monad.

Declare Scope async_scope.
Delimit Scope async_scope with async.
Notation "x <- m ;; k" := (bind m (fun x => k))
  (at level 100, m at next level, right associativity) : async_scope.
Notation "m ;; k" := (bind m (fun _ => k))
  (at level 100, right associativity) : async_scope.
Open Scope async_scope.

(** ** The builder *)

(** The double-quote character of the error messages. *)
Definition dquote : string := String (ascii_of_nat 34) EmptyString.

(** Interpolation of a possibly absent value in a template literal. *)
Definition interpolate_line (n : option Z) : string :=
  match n with
  | Some z => NilZero.string_of_int (Z.to_int z)
  | None => "null"
  end.

Definition interpolate_opt (s : option string) : string :=
  match s with Some s' => s' | None => "null" end.

Section Builder.
Context `{Host}.

(** Modelled from the spec: [findRelativePath] of [../utils/find-relative-path],
    which is not among the sources (PathResolver, section 4.1): the candidates
    are checked in the order supplied, the first base directory that is an
    ancestor of the target wins and the result is the target relative to it;
    no ancestor gives NotFound. *)
Fixpoint findRelativePath (basePaths : list string) (target : string) : option string :=
  match basePaths with
  | [] => None
  | baseDir :: rest =>
      if is_ancestor baseDir target
      then Some (path_relative baseDir target)
      else findRelativePath rest target
  end.

(** The logger, a process-wide collaborator: each call is an event. *)
Definition logger_info {L} (args : list LogArg) : M L unit := emit (EvLog LInfo args).
Definition logger_success {L} (args : list LogArg) : M L unit := emit (EvLog LSuccess args).
Definition logger_warn {L} (args : list LogArg) : M L unit := emit (EvLog LWarn args).
Definition logger_error {L} (args : list LogArg) : M L unit := emit (EvLog LError args).
Definition logger_debug {L} (args : list LogArg) : M L unit := emit (EvLog LDebug args).

(** [array.forEach(cb)] *)
Fixpoint forEach {L A} (xs : list A) (cb : A -> M L unit) : M L unit :=
  match xs with
  | [] => ret tt
  | x :: rest => cb x ;; forEach rest cb
  end.

(** The class is built over one configuration. *)
Variable config : IProjectConfig.

(** private async buildDir(baseDir, pattern, cb) *)
Definition buildDir {L} (baseDir : StringOrArray) (pattern : string)
    (cb : string -> M L unit) : M L unit :=
  let pathPattern := map (fun d => path_join d pattern) (castArray baseDir) in
  matches <- host_read (globule_find pathPattern) ;;
  fold_left
    (fun acc match_ => then_ acc (fun _ => emit (EvInvoke match_) ;; cb match_))
    matches
    (ret tt).

(** async updateScript(filePath) *)
Definition updateScript (filePath : string) : M unit unit :=
  if negb (truthy_string (out_scripts (output_ config))) then ret tt
  else
    let srcPath := path_resolve filePath in
    let destPath := path_join (out_scripts (output_ config)) (pbase (path_parse filePath)) in
    host_call (mkdirp (out_scripts (output_ config)))
              (EvMkdirp (out_scripts (output_ config))) ;;
    host_call (copyFile srcPath destPath None) (EvCopyFile srcPath destPath None) ;;
    logger_info [AStr "Script updated:"; AStr (normalizePath destPath)].

(** async updateAsset(filePath) *)
Definition updateAsset (filePath : string) : M unit unit :=
  let srcPath := path_resolve filePath in
  let relativePath :=
    findRelativePath (castArray (Str (in_assets (input config)))) filePath in
  match relativePath with
  | Some relativePath' =>
      if negb (truthy_string relativePath')
      then throw (mkError ("Cannot find relative path for asset " ++ dquote ++ filePath ++ dquote))
      else
        let destPath := path_join (out_assets (output_ config)) relativePath' in
        host_call (mkdirp (pdir (path_parse destPath)))
                  (EvMkdirp (pdir (path_parse destPath))) ;;
        host_call (copyFile srcPath destPath None) (EvCopyFile srcPath destPath None) ;;
        logger_info [AStr "Asset updated"; AStr (normalizePath destPath)]
  | None =>
      throw (mkError ("Cannot find relative path for asset " ++ dquote ++ filePath ++ dquote))
  end.

(** async updateInclude(filePath) *)
Definition updateInclude (filePath : string) : M unit unit :=
  let srcPath := path_resolve filePath in
  let destPath := path_join (out_include (output_ config)) (pbase (path_parse filePath)) in
  host_call (mkdirp (out_include (output_ config)))
            (EvMkdirp (out_include (output_ config))) ;;
  host_call (copyFile srcPath destPath None) (EvCopyFile srcPath destPath None) ;;
  logger_info [AStr "Include updated:"; AStr (normalizePath destPath)].

(** The callback of [result.output.messages.forEach] in [compilePlugin]. *)
Definition logMessage {L} (relateiveSrcPath : string) (message : AMXPCMessage) : M L unit :=
  let relativeFilePath :=
    match filename message with
    | Some filename' =>
        if truthy_string filename' then path_relative cwd filename' else relateiveSrcPath
    | None => relateiveSrcPath
    end in
  let location :=
    normalizePath relativeFilePath ++ "(" ++ interpolate_line (startLine message) ++ ")" in
  if AMXPCMessageType_eqb (type message) Error
     || AMXPCMessageType_eqb (type message) FatalError
  then logger_error [AStr location; AType (type message); opt_arg (code message);
                     AStr ":"; AStr (text message)]
  else if AMXPCMessageType_eqb (type message) Warning
  then logger_warn [AStr location; AType (type message); opt_arg (code message);
                    AStr ":"; AStr (text message)]
  else if AMXPCMessageType_eqb (type message) Echo
  then logger_debug [AStr (text message)]
  else ret tt.

(** async compilePlugin(filePath) *)
Definition compilePlugin (filePath : string) : M unit unit :=
  let srcPath := path_resolve filePath in
  destDir <-
    (let destDir := path_resolve (out_plugins (output_ config)) in
     if negb (flatCompilation (rules config)) then
       let srcDir := pdir (path_parse srcPath) in
       let relativePath :=
         findRelativePath (castArray (Str (in_scripts (input config)))) srcDir in
       match relativePath with
       | Some relativePath' =>
           if negb (truthy_string relativePath')
           then throw (mkError ("Cannot find relative path for plugin "
                                ++ dquote ++ filePath ++ dquote))
           else ret (path_join destDir relativePath')
       | None =>
           throw (mkError ("Cannot find relative path for plugin "
                           ++ dquote ++ filePath ++ dquote))
       end
     else ret destDir) ;;
  let relateiveSrcPath := path_relative cwd srcPath in
  let executable' := path_join (dir (compiler_ config)) (executable (compiler_ config)) in
  host_call (mkdirp destDir) (EvMkdirp destDir) ;;
  let options :=
    {| path := srcPath;
       dest := destDir;
       compiler := executable';
       includeDir :=
         [path_join (dir (compiler_ config)) "include"]
         ++ include config
         ++ castArray (Str (in_include (input config))) |} in
  result' <- host_call (amxxpc options) (EvAmxxpc options) ;;
  forEach (messages (output result')) (logMessage relateiveSrcPath) ;;
  if success result' then
    let destPath := path_join destDir (plugin result') in
    let relativeFilePath := path_relative cwd filePath in
    logger_success [AStr "Compilation success:"; AStr (normalizePath relativeFilePath)] ;;
    logger_info [AStr "Plugin updated:"; AStr (normalizePath destPath)]
  else
    throw (mkError ("Failed to compile " ++ normalizePath relateiveSrcPath ++ " : "
                    ++ dquote ++ interpolate_opt (error result') ++ dquote)).

(** async updatePlugin(filePath) *)
Definition updatePlugin (filePath : string) : M unit unit :=
  updateScript filePath ;;
  compilePlugin filePath.

(** async buildSrc(options): [success] is the variable captured by the
    callback. *)
Definition buildSrc (options : BuildOptions) : M unit bool :=
  let_mut true
    (buildDir (Str (in_scripts (input config))) SCRIPTS_PATH_PATTERN
       (fun filePath =>
          try_catch
            (lift (updatePlugin filePath))
            (fun err =>
               if negb (truthy_flag (ignoreErrors options))
               then throw err
               else set_var false)) ;;
     get_var).

(** async buildInclude() *)
Definition buildInclude : M unit unit :=
  buildDir (Str (in_include (input config))) INCLUDE_PATH_PATTERN
    (fun filePath => updateInclude filePath).

(** async buildAssets() *)
Definition buildAssets : M unit unit :=
  if negb (truthy_string (in_assets (input config))) then ret tt
  else
    buildDir (Str (in_assets (input config))) ASSETS_PATH_PATTERN
      (fun filePath => updateAsset filePath).

(** async build(options) *)
Definition build (options : BuildOptions) : M unit unit :=
  logger_info [AStr "Building..."] ;;
  buildAssets ;;
  buildInclude ;;
  success' <- buildSrc options ;;
  if (success' : bool)
  then logger_success [AStr "Build finished!"]
  else logger_error [AStr "Build finished with errors!"].

(** ** Vocabulary of the properties *)

(** The script files of a batch, in scan order. *)
Definition matched_scripts (w : World) : list string :=
  globule_find
    (map (fun d => path_join d SCRIPTS_PATH_PATTERN)
         (castArray (Str (in_scripts (input config))))) w.

(** How the per-file operation settles on each file when the files are
    processed one after the other, each from the world the previous one
    left. *)
Fixpoint outcomes (files : list string) (w : World) : list (Result unit) :=
  match files with
  | [] => []
  | f :: rest =>
      let o := updatePlugin f tt w in
      result o :: outcomes rest (world o)
  end.

Fixpoint first_failure (rs : list (Result unit)) : option JsError :=
  match rs with
  | [] => None
  | Ok _ :: rest => first_failure rest
  | Throw e :: _ => Some e
  end.

(** The files the callback of [buildDir] was called on, in order. *)
Fixpoint invocations (t : list Event) : list string :=
  match t with
  | [] => []
  | EvInvoke f :: rest => f :: invocations rest
  | _ :: rest => invocations rest
  end.

(** The two terminal status lines of [build]. *)
Definition success_line : Event := EvLog LSuccess [AStr "Build finished!"].
Definition errors_line : Event := EvLog LError [AStr "Build finished with errors!"].

Definition is_terminal_line (e : Event) : bool :=
  match e with
  | EvLog LSuccess [AStr s] => String.eqb s "Build finished!"
  | EvLog LError [AStr s] => String.eqb s "Build finished with errors!"
  | _ => false
  end.

Definition terminal_lines (t : list Event) : list Event := filter is_terminal_line t.

(** The spec's table of section 4.5: the log level of each severity. *)
Definition severity_level (t : AMXPCMessageType) : LogLevel :=
  match t with
  | FatalError => LError
  | Error => LError
  | Warning => LWarn
  | Echo => LDebug
  end.

(** The runs of a callback on the files, one after the other, up to the
    first that is rejected: each run starts from the variables and world
    the previous one left. *)
Fixpoint action_runs {L} (cb : string -> M L unit) (files : list string)
    (l : L) (w : World) : list (string * Outcome L unit) :=
  match files with
  | [] => []
  | f :: rest =>
      let o := cb f l w in
      (f, o) :: match result o with
                | Ok _ => action_runs cb rest (locals o) (world o)
                | Throw _ => []
                end
  end.

Definition not_invoke (e : Event) : Prop :=
  match e with EvInvoke _ => False | _ => True end.

(** An event of a per-file operation: neither the record of a callback
    invocation nor one of the two terminal status lines. *)
Definition file_event (e : Event) : Prop :=
  not_invoke e /\ is_terminal_line e = false.

(** The callback that [buildSrc] hands to [buildDir]. *)
Definition src_callback (options : BuildOptions) (filePath : string) : M bool unit :=
  try_catch
    (lift (updatePlugin filePath))
    (fun err =>
       if negb (truthy_flag (ignoreErrors options)) then throw err else set_var false).

(** The log call [logMessage] makes for a message. *)
Definition message_event (relateiveSrcPath : string) (m : AMXPCMessage) : Event :=
  let relativeFilePath :=
    match filename m with
    | Some filename' =>
        if truthy_string filename' then path_relative cwd filename' else relateiveSrcPath
    | None => relateiveSrcPath
    end in
  let location :=
    (normalizePath relativeFilePath ++ "(" ++ interpolate_line (startLine m) ++ ")")%string in
  match type m with
  | Echo => EvLog LDebug [AStr (text m)]
  | Warning => EvLog LWarn [AStr location; AType Warning; opt_arg (code m); AStr ":"; AStr (text m)]
  | t => EvLog LError [AStr location; AType t; opt_arg (code m); AStr ":"; AStr (text m)]
  end.

(** The destination directory [compilePlugin] computes, or the error it
    throws instead. *)
Definition plugin_destination (filePath : string) : Result string :=
  let destDir := path_resolve (out_plugins (output_ config)) in
  if flatCompilation (rules config) then Ok destDir
  else
    match findRelativePath (castArray (Str (in_scripts (input config))))
                           (pdir (path_parse (path_resolve filePath))) with
    | Some (String c rel) => Ok (path_join destDir (String c rel))
    | _ => Throw (mkError ("Cannot find relative path for plugin "
                           ++ dquote ++ filePath ++ dquote)%string)
    end.

Definition plugin_options (filePath destDir : string) : AMXPCOptions :=
  {| path := path_resolve filePath;
     dest := destDir;
     compiler := path_join (dir (compiler_ config)) (executable (compiler_ config));
     includeDir :=
       [path_join (dir (compiler_ config)) "include"]
       ++ include config ++ castArray (Str (in_include (input config))) |}.

(** What [compilePlugin] does once the compiler has returned [r]. *)
Definition plugin_report (filePath destDir : string) (r : AMXPCResult)
  : Result unit * list Event :=
  let rel := path_relative cwd (path_resolve filePath) in
  let logged := map (message_event rel) (messages (output r)) in
  if success r then
    (Ok tt,
     (logged ++
      [EvLog LSuccess [AStr "Compilation success:";
                       AStr (normalizePath (path_relative cwd filePath))];
       EvLog LInfo [AStr "Plugin updated:";
                    AStr (normalizePath (path_join destDir (plugin r)))]])%list)
  else
    (Throw (mkError ("Failed to compile " ++ normalizePath rel ++ " : "
                     ++ dquote ++ interpolate_opt (error r) ++ dquote)%string),
     logged).

(** A copy of [src] to [dest] after the creation of [dir]: what
    [updateScript], [updateInclude] and [updateAsset] do once the
    destination is known. *)
Definition sync_outcome (src dir dest : string) (line : list LogArg) (w : World)
  : Outcome unit unit :=
  let '(r1, w1) := mkdirp dir w in
  match r1 with
  | Throw e => mkOutcome (Throw e) tt w1 [EvMkdirp dir r1]
  | Ok _ =>
      let '(r2, w2) := copyFile src dest None w1 in
      match r2 with
      | Throw e => mkOutcome (Throw e) tt w2 [EvMkdirp dir r1; EvCopyFile src dest None r2]
      | Ok _ =>
          mkOutcome (Ok tt) tt w2
            [EvMkdirp dir r1; EvCopyFile src dest None r2; EvLog LInfo line]
      end
  end.

(** The file is copied from [src] to [dest] and nowhere else, in the
    default mode of [copyFile], which replaces an existing destination;
    the directory [dir] has been created when the copy starts; and the
    operation succeeds only by making the copy. *)
Definition copies_to (o : Outcome unit unit) (src dir dest : string) : Prop :=
  (forall s d m r, In (EvCopyFile s d m r) (trace o) -> s = src /\ d = dest /\ m = None)
  /\ (forall pre post s d m r,
        trace o = (pre ++ EvCopyFile s d m r :: post)%list ->
        In (EvMkdirp dir (Ok tt)) pre)
  /\ (result o = Ok tt -> In (EvCopyFile src dest None (Ok tt)) (trace o)).

Definition is_log (e : Event) : Prop :=
  match e with EvLog _ _ => True | _ => False end.

Definition quiet (e : Event) : Prop := is_terminal_line e = false.

(** The trace ends with a terminal status line and has no other. *)
Definition ends_with_one_terminal_line (t : list Event) : Prop :=
  exists body line,
    t = (body ++ [line])%list
    /\ is_terminal_line line = true
    /\ terminal_lines body = [].

(** The world in which [build] starts the scripts, after the assets and
    the include files. *)
Definition before_scripts (w : World) : World :=
  world (buildInclude tt (world (buildAssets tt w))).

End Builder.

(** ** Watch mode

    [chokidar] keeps the watchers the builder creates; a watcher is what it
    was created with and the listeners bound to it since.  The watchers of
    the process are the variables of the code that sets them up. *)

Inductive WatchEventName := OnAdd | OnChange.

Record WatchOptions := { ignoreInitial : bool; interval : nat }.

Record Watcher `{Host} := mkWatcher {
  watched : list string;
  watch_options : WatchOptions;
  listeners : list (WatchEventName * (string -> M unit unit))
}.
Arguments mkWatcher {_}.
Arguments watched {_}.
Arguments watch_options {_}.
Arguments listeners {_}.

Section Watching.
Context `{Host}.
Variable config : IProjectConfig.

(** [chokidar.watch(paths, options)]: a new watcher, without listener. *)
Definition chokidar_watch (paths : list string) (options : WatchOptions)
  : M (list Watcher) nat :=
  fun ws w => mkOutcome (Ok (length ws)) (ws ++ [mkWatcher paths options []])%list w [].

Fixpoint add_listener (ws : list Watcher) (watcher : nat)
    (l : WatchEventName * (string -> M unit unit)) : list Watcher :=
  match ws, watcher with
  | [], _ => []
  | x :: rest, O =>
      mkWatcher (watched x) (watch_options x) (listeners x ++ [l])%list :: rest
  | x :: rest, S n => x :: add_listener rest n l
  end.

(** [watcher.on(name, listener)] *)
Definition watcher_on (watcher : nat) (name : WatchEventName)
    (listener : string -> M unit unit) : M (list Watcher) unit :=
  fun ws w => mkOutcome (Ok tt) (add_listener ws watcher (name, listener)) w [].

(** [promise.catch(onRejected)] *)
Definition catch_ {L A} (p : M L A) (onRejected : JsError -> M L A) : M L A :=
  try_catch p onRejected.

(** The listener [updateFn] of [watchDir]. *)
Definition updateFn (cb : string -> M unit unit) (filePath : string) : M unit unit :=
  catch_ (cb filePath) (fun err => logger_error [AStr (message err)]).

(** private async watchDir(baseDir, pattern, cb) *)
Definition watchDir (baseDir : StringOrArray) (pattern : string)
    (cb : string -> M unit unit) : M (list Watcher) unit :=
  let pathPattern := map (fun d => path_join d pattern) (castArray baseDir) in
  watcher <- chokidar_watch pathPattern {| ignoreInitial := true; interval := 300 |} ;;
  watcher_on watcher OnAdd (updateFn cb) ;;
  watcher_on watcher OnChange (updateFn cb).

(** async watchSrc() *)
Definition watchSrc : M (list Watcher) unit :=
  watchDir (Str (in_scripts (input config))) SCRIPTS_PATH_PATTERN
    (fun filePath => updatePlugin config filePath).

(** async watchInclude() *)
Definition watchInclude : M (list Watcher) unit :=
  watchDir (Str (in_include (input config))) INCLUDE_PATH_PATTERN
    (fun filePath => updateInclude config filePath).

(** async watchAssets() *)
Definition watchAssets : M (list Watcher) unit :=
  if negb (truthy_string (in_assets (input config))) then ret tt
  else
    watchDir (Str (in_assets (input config))) ASSETS_PATH_PATTERN
      (fun filePath => updateAsset config filePath).

(** async watch() *)
Definition watch : M (list Watcher) unit :=
  watchAssets ;;
  watchInclude ;;
  watchSrc.

(** The watcher [watchDir] leaves behind. *)
Definition dir_watcher (baseDir : StringOrArray) (pattern : string)
    (cb : string -> M unit unit) : Watcher :=
  mkWatcher (map (fun d => path_join d pattern) (castArray baseDir))
            {| ignoreInitial := true; interval := 300 |}
            [(OnAdd, updateFn cb); (OnChange, updateFn cb)].

(** ** Further vocabulary *)

Definition not_compile (e : Event) : Prop :=
  match e with EvAmxxpc _ _ => False | _ => True end.

Definition not_copy (e : Event) : Prop :=
  match e with EvCopyFile _ _ _ _ => False | _ => True end.

(** The number of calls of the compiler in a trace. *)
Fixpoint compiler_calls (t : list Event) : nat :=
  match t with
  | [] => 0
  | EvAmxxpc _ _ :: rest => S (compiler_calls rest)
  | _ :: rest => compiler_calls rest
  end.

(** The first event of [build]. *)
Definition start_line : Event := EvLog LInfo [AStr "Building..."].

(** From the world [w], the outcome [o] places the file: besides what
    [copies_to] says of its events, [o] succeeds exactly by creating [dir]
    with [mkdirp] in [w] and then copying [src] to [dest] with [copyFile],
    in its default mode, in the world [mkdirp] left, and it leaves the
    world [copyFile] left; when [mkdirp] fails, [o] fails with its error in
    the world it left, without a copy. *)
Definition placed (o : Outcome unit unit) (w : World) (src dir dest : string) : Prop :=
  copies_to o src dir dest
  /\ (result o = Ok tt ->
      exists w1, mkdirp dir w = (Ok tt, w1)
                 /\ copyFile src dest None w1 = (Ok tt, world o))
  /\ (forall w1 w2,
        mkdirp dir w = (Ok tt, w1) -> copyFile src dest None w1 = (Ok tt, w2) ->
        result o = Ok tt /\ world o = w2)
  /\ (forall e w1,
        mkdirp dir w = (Throw e, w1) ->
        result o = Throw e /\ world o = w1 /\ trace o = [EvMkdirp dir (Throw e)]).

(** The outcome [o] of an operation, with its failure logged and caught. *)
Definition logged_failure (o : Outcome unit unit) : Outcome unit unit :=
  mkOutcome (Ok tt) tt (world o)
    (trace o ++ match result o with
                | Ok _ => []
                | Throw e => [EvLog LError [AStr (message e)]]
                end)%list.

(** The watcher [x] watches [paths] and each of its listeners runs [cb],
    logging its failure. *)
Definition listens_with (x : Watcher) (paths : list string)
    (cb : string -> M unit unit) : Prop :=
  watched x = paths
  /\ map fst (listeners x) = [OnAdd; OnChange]
  /\ forall name listener,
      In (name, listener) (listeners x) ->
      forall filePath w, listener filePath tt w = logged_failure (cb filePath tt w).

End Watching.

(** ** A concrete host

    POSIX-like paths, a file system that is a table from absolute paths to
    contents, and a fake compiler: a script whose content is ["error"] fails
    to compile with one error diagnostic, a script whose content is ["warn"]
    compiles with one warning, any other script compiles silently. *)

Module Posix.

Fixpoint split_slash (s cur : string) : list string :=
  match s with
  | EmptyString => [cur]
  | String c rest =>
      if Ascii.eqb c "/"%char
      then cur :: split_slash rest EmptyString
      else split_slash rest (cur ++ String c EmptyString)
  end.

Definition is_absolute (p : string) : bool :=
  match p with
  | String c _ => Ascii.eqb c "/"%char
  | EmptyString => false
  end.

(** Drops empty and ["."] segments and resolves [".."]; [acc] is reversed. *)
Fixpoint norm_segs (abs : bool) (segs acc : list string) : list string :=
  match segs with
  | [] => rev acc
  | s :: rest =>
      if (s =? EmptyString) || (s =? ".") then norm_segs abs rest acc
      else if s =? ".." then
        match acc with
        | [] => norm_segs abs rest (if abs then [] else [".."])
        | a :: acc' =>
            if a =? ".." then norm_segs abs rest (".." :: acc)
            else norm_segs abs rest acc'
        end
      else norm_segs abs rest (s :: acc)
  end.

Definition segments (p : string) : list string :=
  norm_segs (is_absolute p) (split_slash p EmptyString) [].

Definition unsegments (abs : bool) (segs : list string) : string :=
  if abs then "/" ++ String.concat "/" segs
  else match segs with
       | [] => "."
       | _ => String.concat "/" segs
       end.

Definition normalize (p : string) : string := unsegments (is_absolute p) (segments p).

Definition join (a b : string) : string :=
  match a, b with
  | EmptyString, EmptyString => "."
  | EmptyString, _ => normalize b
  | _, EmptyString => normalize a
  | _, _ => normalize (a ++ "/" ++ b)
  end.

Definition cwd : string := "/proj".

Definition resolve (p : string) : string :=
  if is_absolute p then normalize p else normalize (cwd ++ "/" ++ p).

Definition parse (p : string) : ParsedPath :=
  let segs := split_slash p EmptyString in
  let d := String.concat "/" (removelast segs) in
  {| pdir := if is_absolute p && (d =? EmptyString) then "/" else d;
     pbase := last segs EmptyString |}.

Fixpoint strip_common (xs ys : list string) : list string * list string :=
  match xs, ys with
  | x :: xs', y :: ys' => if x =? y then strip_common xs' ys' else (xs, ys)
  | _, _ => (xs, ys)
  end.

Definition relative (from to : string) : string :=
  let '(f, t) := strip_common (segments (resolve from)) (segments (resolve to)) in
  String.concat "/" (map (fun _ => "..") f ++ t).

(** A proper ancestor: every segment of the directory, then at least one more. *)
Definition is_ancestor (d p : string) : bool :=
  match strip_common (segments (resolve d)) (segments (resolve p)) with
  | ([], _ :: _) => true
  | _ => false
  end.

Definition ends_with (s suffix : string) : bool :=
  let n := String.length s in
  let k := String.length suffix in
  (k <=? n)%nat && (substring (n - k) k s =? suffix).

End Posix.

Module Fake.

Record FakeWorld := { files : list (string * string); dirs : list string }.

Fixpoint read (fs : list (string * string)) (p : string) : option string :=
  match fs with
  | [] => None
  | (q, c) :: rest => if q =? p then Some c else read rest p
  end.

Fixpoint write (fs : list (string * string)) (p c : string) : list (string * string) :=
  match fs with
  | [] => [(p, c)]
  | (q, c') :: rest => if q =? p then (q, c) :: rest else (q, c') :: write rest p c
  end.

Definition fs_mkdirp (d : string) (w : FakeWorld) : Result unit * FakeWorld :=
  (Ok tt, {| files := files w; dirs := Posix.resolve d :: dirs w |}).

(** [COPYFILE_EXCL] is mode 1; without it the destination is replaced. *)
Definition fs_copyFile (src dst : string) (mode : option nat) (w : FakeWorld)
  : Result unit * FakeWorld :=
  match read (files w) (Posix.resolve src) with
  | None => (Throw (mkError ("ENOENT: no such file or directory, copyfile " ++ src)), w)
  | Some c =>
      let exists_ := match read (files w) (Posix.resolve dst) with Some _ => true | None => false end in
      let excl := match mode with Some 1 => true | _ => false end in
      if excl && exists_
      then (Throw (mkError ("EEXIST: file already exists, copyfile " ++ dst)), w)
      else if existsb (String.eqb (pdir (Posix.parse (Posix.resolve dst)))) (dirs w)
      then (Ok tt, {| files := write (files w) (Posix.resolve dst) c; dirs := dirs w |})
      else (Throw (mkError ("ENOENT: no such file or directory, copyfile " ++ dst)), w)
  end.

Definition artifact_name (base : string) : string :=
  substring 0 (String.length base - 4) base ++ ".amxx".

Definition fake_amxxpc (opts : AMXPCOptions) (w : FakeWorld) : Result AMXPCResult * FakeWorld :=
  match read (files w) (path opts) with
  | None =>
      (Ok {| success := false; plugin := EmptyString; error := Some "cannot read the source";
             output := {| messages := [] |} |}, w)
  | Some c =>
      if c =? "error" then
        (Ok {| success := false; plugin := EmptyString; error := Some "compilation error";
               output := {| messages :=
                 [ {| startLine := Some 1%Z; type := Error; code := Some "017";
                      text := "undefined symbol"; filename := None |} ] |} |}, w)
      else
        let name := artifact_name (pbase (Posix.parse (path opts))) in
        (Ok {| success := true; plugin := name; error := None;
               output := {| messages :=
                 if c =? "warn"
                 then [ {| startLine := Some 3%Z; type := Warning; code := Some "203";
                           text := "symbol is never used"; filename := None |} ]
                 else [] |} |},
         {| files := write (files w) (Posix.join (dest opts) name) "amxx"; dirs := dirs w |})
  end.

(** A pattern [d/**/*ext] matches the files below [d] that end with [ext]
    ([.*] stands for any extension); the matches are listed the way the
    pattern names the directory. *)
Definition glob_one (pattern : string) (w : FakeWorld) : list string :=
  match index 0 "/**/*" pattern with
  | None => []
  | Some n =>
      let d := substring 0 n pattern in
      let ext := substring (n + 5) (String.length pattern - (n + 5)) pattern in
      flat_map
        (fun '(p, _) =>
           if Posix.is_ancestor d p && ((ext =? ".*") || Posix.ends_with p ext)
           then [Posix.join d (Posix.relative d p)]
           else [])
        (files w)
  end.

Definition glob_find (patterns : list string) (w : FakeWorld) : list string :=
  flat_map (fun pattern => glob_one pattern w) patterns.

Definition host : Host := {|
  World := FakeWorld;
  cwd := Posix.cwd;
  path_resolve := Posix.resolve;
  path_join := Posix.join;
  path_parse := Posix.parse;
  path_relative := Posix.relative;
  normalizePath := fun p => p;
  is_ancestor := Posix.is_ancestor;
  ASSETS_PATH_PATTERN := "**/*.*";
  INCLUDE_PATH_PATTERN := "**/*.inc";
  SCRIPTS_PATH_PATTERN := "**/*.sma";
  globule_find := glob_find;
  mkdirp := fs_mkdirp;
  copyFile := fs_copyFile;
  amxxpc := fake_amxxpc
|}.

(** The project of the spec's scenarios. *)
Definition config (flat : bool) : IProjectConfig := {|
  input := {| in_scripts := "src/scripts"; in_include := "src/include"; in_assets := "assets" |};
  output_ := {| out_scripts := "dist/scripts"; out_plugins := "output_plugins";
                out_include := "dist/include"; out_assets := "output_assets" |};
  compiler_ := {| dir := ".compiler"; executable := "amxxpc" |};
  include := [];
  rules := {| flatCompilation := flat |}
|}.

(** [a.sma] compiles, [b.sma] fails, [maps/de_dust.sma] compiles with a warning. *)
Definition project : FakeWorld := {|
  files := [ ("/proj/src/scripts/a.sma", "plugin a");
             ("/proj/src/scripts/b.sma", "error");
             ("/proj/src/scripts/maps/de_dust.sma", "warn");
             ("/proj/src/include/util.inc", "stock util");
             ("/proj/assets/textures/foo.wad", "wad");
             ("/proj/output_assets/textures/foo.wad", "stale") ];
  dirs := []
|}.

(** The same project without the failing script. *)
Definition clean_project : FakeWorld := {|
  files := [ ("/proj/src/scripts/a.sma", "plugin a");
             ("/proj/src/scripts/maps/de_dust.sma", "warn");
             ("/proj/src/include/util.inc", "stock util");
             ("/proj/assets/textures/foo.wad", "wad") ];
  dirs := []
|}.

(** A project with one script that lies outside every input directory. *)
Definition stray_project : FakeWorld := {|
  files := [ ("/elsewhere/x.sma", "plugin x"); ("/elsewhere/logo.png", "png") ];
  dirs := []
|}.

Definition strict : BuildOptions := {| ignoreErrors := Some false |}.
Definition tolerant : BuildOptions := {| ignoreErrors := Some true |}.

(** The error of the fake compiler on [b.sma]. *)
Definition b_failure : JsError :=
  mkError ("Failed to compile src/scripts/b.sma : " ++ dquote ++ "compilation error" ++ dquote).

(** The options and the result of the compilation of [maps/de_dust.sma]
    under the mirrored rule. *)
Definition de_dust_options : AMXPCOptions :=
  {| path := "/proj/src/scripts/maps/de_dust.sma";
     dest := "/proj/output_plugins/maps";
     compiler := ".compiler/amxxpc";
     includeDir := [".compiler/include"; "src/include"] |}.

Definition de_dust_result : AMXPCResult :=
  {| success := true;
     plugin := "de_dust.amxx";
     error := None;
     output := {| messages :=
       [ {| startLine := Some 3%Z; type := Warning; code := Some "203";
            text := "symbol is never used"; filename := None |} ] |} |}.

End Fake.

(** Variants of the concrete host and of its project. *)
Module Variants.

(** A directory counts as an ancestor of itself. *)
Definition is_ancestor_or_self (d p : string) : bool :=
  match Posix.strip_common (Posix.segments (Posix.resolve d))
                           (Posix.segments (Posix.resolve p)) with
  | ([], _) => true
  | _ => false
  end.

Definition loose_host : Host := {|
  World := Fake.FakeWorld;
  cwd := Posix.cwd;
  path_resolve := Posix.resolve;
  path_join := Posix.join;
  path_parse := Posix.parse;
  path_relative := Posix.relative;
  normalizePath := fun p => p;
  is_ancestor := is_ancestor_or_self;
  ASSETS_PATH_PATTERN := "**/*.*";
  INCLUDE_PATH_PATTERN := "**/*.inc";
  SCRIPTS_PATH_PATTERN := "**/*.sma";
  globule_find := Fake.glob_find;
  mkdirp := Fake.fs_mkdirp;
  copyFile := Fake.fs_copyFile;
  amxxpc := Fake.fake_amxxpc
|}.

(** The assets output directory cannot be written. *)
Definition denied : JsError := mkError "EACCES: permission denied, mkdir".

Definition denied_mkdirp (d : string) (w : Fake.FakeWorld) : Result unit * Fake.FakeWorld :=
  if String.prefix "output_assets" d then (Throw denied, w) else Fake.fs_mkdirp d w.

Definition denied_host : Host := {|
  World := Fake.FakeWorld;
  cwd := Posix.cwd;
  path_resolve := Posix.resolve;
  path_join := Posix.join;
  path_parse := Posix.parse;
  path_relative := Posix.relative;
  normalizePath := fun p => p;
  is_ancestor := Posix.is_ancestor;
  ASSETS_PATH_PATTERN := "**/*.*";
  INCLUDE_PATH_PATTERN := "**/*.inc";
  SCRIPTS_PATH_PATTERN := "**/*.sma";
  globule_find := Fake.glob_find;
  mkdirp := denied_mkdirp;
  copyFile := Fake.fs_copyFile;
  amxxpc := Fake.fake_amxxpc
|}.

(** The project without a scripts output directory. *)
Definition config_no_copy : IProjectConfig := {|
  input := input (Fake.config true);
  output_ := {| out_scripts := EmptyString; out_plugins := "output_plugins";
                out_include := "dist/include"; out_assets := "output_assets" |};
  compiler_ := compiler_ (Fake.config true);
  include := [];
  rules := {| flatCompilation := true |}
|}.

(** The options and the result of the compilation of [a.sma] under the
    flat rule. *)
Definition a_options : AMXPCOptions :=
  {| path := "/proj/src/scripts/a.sma";
     dest := "/proj/output_plugins";
     compiler := ".compiler/amxxpc";
     includeDir := [".compiler/include"; "src/include"] |}.

Definition a_result : AMXPCResult :=
  {| success := true; plugin := "a.amxx"; error := None;
     output := {| messages := [] |} |}.

(** The project with stale copies in the output directories. *)
Definition stale_project : Fake.FakeWorld := {|
  Fake.files := [ ("/proj/src/scripts/maps/de_dust.sma", "warn");
                  ("/proj/src/include/util.inc", "stock util");
                  ("/proj/assets/textures/foo.wad", "wad");
                  ("/proj/dist/scripts/de_dust.sma", "stale");
                  ("/proj/dist/include/util.inc", "stale");
                  ("/proj/output_assets/textures/foo.wad", "stale") ];
  Fake.dirs := []
|}.

End Variants.

(** ** Laws of the monad *)

Open Scope list_scope.

Section MonadLaws.
Context `{Host}.

Lemma outcome_eta {L A} (o : Outcome L A) :
  mkOutcome (result o) (locals o) (world o) (trace o) = o.
Proof. destruct o; reflexivity. Qed.

Lemma bind_result {L A B} (m : M L A) (f : A -> M L B) l w :
  result (bind m f l w) =
  match result (m l w) with
  | Ok a => result (f a (locals (m l w)) (world (m l w)))
  | Throw e => Throw e
  end.
Proof. unfold bind; destruct (result (m l w)); reflexivity. Qed.

Lemma bind_trace {L A B} (m : M L A) (f : A -> M L B) l w :
  trace (bind m f l w) =
  trace (m l w) ++
  match result (m l w) with
  | Ok a => trace (f a (locals (m l w)) (world (m l w)))
  | Throw _ => []
  end.
Proof.
  unfold bind; destruct (result (m l w)); simpl; [reflexivity|].
  now rewrite app_nil_r.
Qed.

Lemma bind_world {L A B} (m : M L A) (f : A -> M L B) l w :
  world (bind m f l w) =
  match result (m l w) with
  | Ok a => world (f a (locals (m l w)) (world (m l w)))
  | Throw _ => world (m l w)
  end.
Proof. unfold bind; destruct (result (m l w)); reflexivity. Qed.

Lemma bind_locals {L A B} (m : M L A) (f : A -> M L B) l w :
  locals (bind m f l w) =
  match result (m l w) with
  | Ok a => locals (f a (locals (m l w)) (world (m l w)))
  | Throw _ => locals (m l w)
  end.
Proof. unfold bind; destruct (result (m l w)); reflexivity. Qed.

Lemma bind_step {L A B} (m : M L A) (f : A -> M L B) l w r l' w' t :
  m l w = mkOutcome r l' w' t ->
  bind m f l w =
  match r with
  | Ok a =>
      let o' := f a l' w' in
      mkOutcome (result o') (locals o') (world o') (t ++ trace o')
  | Throw e => mkOutcome (Throw e) l' w' t
  end.
Proof. intros E. unfold bind. rewrite E. simpl. now destruct r. Qed.

Lemma host_call_eq {L A} (op : World -> Result A * World) ev (l : L) w r w' :
  op w = (r, w') -> host_call op ev l w = mkOutcome r l w' [ev r].
Proof. intros E. unfold host_call. now rewrite E. Qed.

Lemma bind_assoc {L A B C} (m : M L A) (f : A -> M L B) (g : B -> M L C) l w :
  bind (bind m f) g l w = bind m (fun x => bind (f x) g) l w.
Proof.
  unfold bind.
  destruct (result (m l w)) as [a|e]; simpl; [|reflexivity].
  destruct (result (f a (locals (m l w)) (world (m l w)))); simpl;
    now rewrite ?app_assoc.
Qed.

Lemma bind_ret_l {L A B} (a : A) (f : A -> M L B) l w :
  bind (ret a) f l w = f a l w.
Proof. unfold bind, ret; simpl. apply outcome_eta. Qed.

(** The promise chain built by [reduce] is the sequential loop: the
    callbacks run one after the other, and none runs after a rejection. *)
Lemma reduce_chain {L A} (body : A -> M L unit) (xs : list A) (acc : M L unit) l w :
  fold_left (fun acc x => then_ acc (fun _ => body x)) xs acc l w =
  bind acc (fun _ => forEach xs body) l w.
Proof.
  revert acc l w; induction xs as [|x xs IH]; intros acc l w; simpl.
  - unfold bind, ret. destruct (acc l w) as [r l' w' t]; simpl.
    destruct r as [[]|e]; simpl; now rewrite ?app_nil_r.
  - rewrite IH. unfold then_. apply bind_assoc.
Qed.

(** ** Events of a computation *)

Lemma emits_ret {L A} P (a : A) : emits P (@ret _ L A a).
Proof. intros l w; constructor. Qed.

Lemma emits_throw {L A} P e : emits P (@throw _ L A e).
Proof. intros l w; constructor. Qed.

Lemma emits_emit {L} (P : Event -> Prop) e : P e -> emits P (@emit _ L e).
Proof. intros Pe l w; simpl; auto. Qed.

Lemma emits_host_call {L A} (P : Event -> Prop) (op : World -> Result A * World) ev :
  (forall r, P (ev r)) -> emits P (@host_call _ L A op ev).
Proof. intros HP l w; unfold host_call; destruct (op w); simpl; auto. Qed.

Lemma emits_host_read {L A} P (f : World -> A) : emits P (@host_read _ L A f).
Proof. intros l w; constructor. Qed.

Lemma emits_bind {L A B} P (m : M L A) (f : A -> M L B) :
  emits P m -> (forall a, emits P (f a)) -> emits P (bind m f).
Proof.
  intros Hm Hf l w. rewrite bind_trace. apply Forall_app; split; [apply Hm|].
  destruct (result (m l w)); [apply Hf | constructor].
Qed.

Lemma emits_try_catch {L A} P (m : M L A) (h : JsError -> M L A) :
  emits P m -> (forall e, emits P (h e)) -> emits P (try_catch m h).
Proof.
  intros Hm Hh l w. unfold try_catch.
  destruct (result (m l w)) eqn:E; [apply Hm|]. simpl.
  apply Forall_app; split; [apply Hm | apply Hh].
Qed.

Lemma emits_lift {L A} P (m : M unit A) : emits P m -> emits P (@lift _ L A m).
Proof. intros Hm l w; apply Hm. Qed.

Lemma emits_let_mut {L V A} P (v : V) (m : M V A) :
  emits P m -> emits P (@let_mut _ L V A v m).
Proof. intros Hm l w; apply Hm. Qed.

Lemma emits_get_var {V} P : emits P (@get_var _ V).
Proof. intros l w; constructor. Qed.

Lemma emits_set_var {V} P v : emits P (@set_var _ V v).
Proof. intros l w; constructor. Qed.

Lemma emits_forEach {L A} P (xs : list A) (cb : A -> M L unit) :
  (forall x, emits P (cb x)) -> emits P (forEach xs cb).
Proof.
  intros Hcb; induction xs; simpl; [apply emits_ret|].
  apply emits_bind; auto.
Qed.

End MonadLaws.

Ltac emits_step :=
  lazymatch goal with
  | |- emits _ (bind _ _) => apply emits_bind; [|intro]
  | |- emits _ (ret _) => apply emits_ret
  | |- emits _ (throw _) => apply emits_throw
  | |- emits _ (emit _) => apply emits_emit
  | |- emits _ (host_call _ _) => apply emits_host_call; intro
  | |- emits _ (host_read _) => apply emits_host_read
  | |- emits _ (forEach _ _) => apply emits_forEach; intro
  | |- emits _ (lift _) => apply emits_lift
  | |- emits _ (try_catch _ _) => apply emits_try_catch; [|intro]
  | |- emits _ (let_mut _ _) => apply emits_let_mut
  | |- emits _ get_var => apply emits_get_var
  | |- emits _ (set_var _) => apply emits_set_var
  | |- emits _ (if ?b then _ else _) => destruct b
  | |- emits _ (match ?x with _ => _ end) => destruct x
  end.

(** ** The batch loop *)

Section BatchLoop.
Context `{Host}.

Lemma invocations_app (t1 t2 : list Event) :
  invocations (t1 ++ t2) = invocations t1 ++ invocations t2.
Proof.
  induction t1 as [|e t1 IH]; simpl; [reflexivity|].
  destruct e; simpl; now rewrite ?IH.
Qed.

Lemma invocations_none (t : list Event) : Forall not_invoke t -> invocations t = [].
Proof.
  induction 1 as [|e t He _ IH]; simpl; [reflexivity|].
  destruct e; simpl in *; tauto.
Qed.

(** [buildDir] is the sequential loop over the matches of the scan. *)
Lemma buildDir_loop {L} baseDir pattern (cb : string -> M L unit) l w :
  buildDir baseDir pattern cb l w =
  forEach (globule_find (map (fun d => path_join d pattern) (castArray baseDir)) w)
          (fun match_ => emit (EvInvoke match_) ;; cb match_) l w.
Proof.
  unfold buildDir.
  change (bind (host_read ?f) ?k l w) with
    (let o' := k (f w) l w in mkOutcome (result o') (locals o') (world o') ([] ++ trace o')).
  cbv beta zeta.
  rewrite (reduce_chain (fun match_ => emit (EvInvoke match_) ;; cb match_)), bind_ret_l.
  simpl. apply outcome_eta.
Qed.

Lemma loop_trace_runs {L} (cb : string -> M L unit) files l w :
  trace (forEach files (fun match_ => emit (EvInvoke match_) ;; cb match_) l w) =
  flat_map (fun run => EvInvoke (fst run) :: trace (snd run)) (action_runs cb files l w).
Proof.
  revert l w; induction files as [|f files IH]; intros l w; simpl; [reflexivity|].
  rewrite bind_trace, bind_trace, bind_result, bind_locals, bind_world. simpl.
  destruct (result (cb f l w)) eqn:E; simpl.
  - now rewrite IH.
  - now rewrite !app_nil_r.
Qed.

Lemma loop_result_runs {L} (cb : string -> M L unit) files l w :
  result (forEach files (fun match_ => emit (EvInvoke match_) ;; cb match_) l w) =
  match first_failure (map (fun run => result (snd run)) (action_runs cb files l w)) with
  | None => Ok tt
  | Some e => Throw e
  end.
Proof.
  revert l w; induction files as [|f files IH]; intros l w; simpl; [reflexivity|].
  rewrite bind_result, bind_result, bind_locals, bind_world. simpl.
  destruct (result (cb f l w)) eqn:E; simpl; [apply IH | reflexivity].
Qed.

Lemma runs_prefix {L} (cb : string -> M L unit) files l w :
  exists rest, files = map fst (action_runs cb files l w) ++ rest.
Proof.
  revert l w; induction files as [|f files IH]; intros l w; simpl.
  - now exists [].
  - destruct (result (cb f l w)).
    + destruct (IH (locals (cb f l w)) (world (cb f l w))) as [rest E].
      exists rest. simpl. now rewrite <- E.
    + now exists files.
Qed.

Lemma runs_complete {L} (cb : string -> M L unit) files l w :
  first_failure (map (fun run => result (snd run)) (action_runs cb files l w)) = None ->
  map fst (action_runs cb files l w) = files.
Proof.
  revert l w; induction files as [|f files IH]; intros l w; simpl; [reflexivity|].
  destruct (result (cb f l w)) eqn:E; simpl; rewrite ?E.
  - intros Hn. f_equal. now apply IH.
  - discriminate.
Qed.

End BatchLoop.

(** ** The per-file operations *)

Section Operations.
Context `{Host}.
Variable config : IProjectConfig.

Ltac emits_auto :=
  repeat (cbv zeta; emits_step); try (split; [exact I | reflexivity]).

Lemma updateScript_events f : emits file_event (updateScript config f).
Proof. unfold updateScript, logger_info. emits_auto. Qed.

Lemma updateInclude_events f : emits file_event (updateInclude config f).
Proof. unfold updateInclude, logger_info. emits_auto. Qed.

Lemma updateAsset_events f : emits file_event (updateAsset config f).
Proof. unfold updateAsset, logger_info. emits_auto. Qed.

Lemma logMessage_events {L} rel m : emits file_event (@logMessage _ L rel m).
Proof.
  unfold logMessage, logger_error, logger_warn, logger_debug. emits_auto.
Qed.

Lemma compilePlugin_events f : emits file_event (compilePlugin config f).
Proof.
  unfold compilePlugin, logger_success, logger_info.
  repeat (cbv zeta; emits_step); try (split; [exact I | reflexivity]).
  apply logMessage_events.
Qed.

Lemma updatePlugin_events f : emits file_event (updatePlugin config f).
Proof.
  unfold updatePlugin. apply emits_bind;
    [apply updateScript_events | intro; apply compilePlugin_events].
Qed.

Lemma updatePlugin_no_invoke f w :
  invocations (trace (updatePlugin config f tt w)) = [].
Proof.
  apply invocations_none.
  eapply Forall_impl; [|apply updatePlugin_events]. now intros e [He _].
Qed.

Lemma buildSrc_loop options w :
  buildSrc config options tt w =
  let o := forEach (matched_scripts config w)
             (fun match_ => emit (EvInvoke match_) ;; src_callback config options match_)
             true w in
  mkOutcome (match result o with Ok _ => Ok (locals o) | Throw e => Throw e end)
            tt (world o) (trace o).
Proof.
  unfold buildSrc, let_mut. cbv zeta.
  fold (src_callback config options).
  f_equal.
  - rewrite bind_result, buildDir_loop. fold (matched_scripts config w).
    now destruct (result (forEach _ _ true w)).
  - rewrite bind_world, buildDir_loop. fold (matched_scripts config w).
    now destruct (result (forEach _ _ true w)).
  - rewrite bind_trace, buildDir_loop. fold (matched_scripts config w).
    destruct (result (forEach _ _ true w)); simpl; now rewrite app_nil_r.
Qed.

(** One turn of the loop of [buildSrc]. *)
Lemma src_turn options f b w :
  let o := updatePlugin config f tt w in
  (emit (EvInvoke f) ;; src_callback config options f) b w =
  mkOutcome
    (match result o with
     | Ok _ => Ok tt
     | Throw e => if truthy_flag (ignoreErrors options) then Ok tt else Throw e
     end)
    (match result o with
     | Ok _ => b
     | Throw _ => if truthy_flag (ignoreErrors options) then false else b
     end)
    (world o)
    (EvInvoke f :: trace o).
Proof.
  cbv zeta. unfold bind, emit, src_callback, try_catch, lift. simpl.
  destruct (result (updatePlugin config f tt w)) as [[]|e]; simpl; [reflexivity|].
  destruct (truthy_flag (ignoreErrors options)); simpl; now rewrite ?app_nil_r.
Qed.

Lemma src_loop_cons options f files b w :
  forEach (f :: files)
    (fun match_ => emit (EvInvoke match_) ;; src_callback config options match_) b w =
  bind (emit (EvInvoke f) ;; src_callback config options f)
       (fun _ => forEach files
          (fun match_ => emit (EvInvoke match_) ;; src_callback config options match_)) b w.
Proof. reflexivity. Qed.

(** With [ignoreErrors], the loop visits every file and the variable ends
    as the conjunction of the per-file outcomes. *)
Lemma src_loop_tolerant options files b w :
  truthy_flag (ignoreErrors options) = true ->
  let o := forEach files
             (fun match_ => emit (EvInvoke match_) ;; src_callback config options match_) b w in
  result o = Ok tt
  /\ locals o = b && forallb is_ok (outcomes config files w)
  /\ invocations (trace o) = files.
Proof.
  intros Hi. revert b w; induction files as [|f files IH]; intros b w.
  - simpl. now rewrite andb_true_r.
  - cbv zeta. rewrite src_loop_cons, (bind_step _ _ _ _ _ _ _ _ (src_turn options f b w)).
    rewrite Hi. simpl outcomes.
    destruct (result (updatePlugin config f tt w)) as [[]|e] eqn:E; cbv zeta; simpl.
    + destruct (IH b (world (updatePlugin config f tt w))) as (R & Lc & I).
      rewrite R, Lc, invocations_app, updatePlugin_no_invoke, I. auto.
    + destruct (IH false (world (updatePlugin config f tt w))) as (R & Lc & I).
      rewrite R, Lc, invocations_app, updatePlugin_no_invoke, I.
      now rewrite andb_false_r.
Qed.

(** Without it, the loop stops at the first failure and leaves the
    variable untouched. *)
Lemma src_loop_strict options files b w :
  truthy_flag (ignoreErrors options) = false ->
  let o := forEach files
             (fun match_ => emit (EvInvoke match_) ;; src_callback config options match_) b w in
  result o = match first_failure (outcomes config files w) with
             | None => Ok tt
             | Some e => Throw e
             end
  /\ locals o = b.
Proof.
  intros Hi. revert b w; induction files as [|f files IH]; intros b w.
  - simpl. auto.
  - cbv zeta. rewrite src_loop_cons, (bind_step _ _ _ _ _ _ _ _ (src_turn options f b w)).
    rewrite Hi. simpl outcomes.
    destruct (result (updatePlugin config f tt w)) as [[]|e] eqn:E; cbv zeta; simpl.
    + apply IH.
    + auto.
Qed.


Lemma first_failure_none (rs : list (Result unit)) :
  first_failure rs = None <-> forallb is_ok rs = true.
Proof.
  induction rs as [|[[]|e] rs IH]; simpl; [tauto | exact IH | split; discriminate].
Qed.


(** The way [buildSrc] settles. *)
Lemma buildSrc_result options w :
  result (buildSrc config options tt w) =
  if truthy_flag (ignoreErrors options)
  then Ok (forallb is_ok (outcomes config (matched_scripts config w) w))
  else match first_failure (outcomes config (matched_scripts config w) w) with
       | None => Ok true
       | Some e => Throw e
       end.
Proof.
  rewrite buildSrc_loop. cbv zeta. cbn [result].
  destruct (truthy_flag (ignoreErrors options)) eqn:Hi.
  - destruct (src_loop_tolerant options (matched_scripts config w) true w Hi)
      as (R & Lc & _).
    now rewrite R, Lc.
  - destruct (src_loop_strict options (matched_scripts config w) true w Hi) as (R & Lc).
    rewrite R, Lc. now destruct (first_failure _).
Qed.

Lemma buildSrc_returned options w b :
  result (buildSrc config options tt w) = Ok b ->
  b = forallb is_ok (outcomes config (matched_scripts config w) w).
Proof.
  rewrite buildSrc_result.
  destruct (truthy_flag (ignoreErrors options)); [now intros [= <-]|].
  destruct (first_failure _) eqn:F; [discriminate|].
  intros [= <-]. symmetry. now apply first_failure_none.
Qed.

End Operations.

(** ** Batch properties *)

Section Batch.
Context `{Host}.
Variable config : IProjectConfig.

(** C1. The aggregate returned by [buildSrc] tells whether every per-file
    operation of the batch succeeded, whatever [ignoreErrors] is: when all
    of them succeed the value returned is [true]; any value returned is the
    conjunction of the per-file outcomes; and when [ignoreErrors] lets the
    batch continue past failures, a value is returned and it is [false] as
    soon as one file failed. *)
Theorem buildSrc_aggregate (options : BuildOptions) (w : World) :
  let all_ok := forallb is_ok (outcomes config (matched_scripts config w) w) in
  (all_ok = true -> result (buildSrc config options tt w) = Ok true)
  /\ (forall b, result (buildSrc config options tt w) = Ok b -> b = all_ok)
  /\ (truthy_flag (ignoreErrors options) = true ->
      result (buildSrc config options tt w) = Ok all_ok).
Proof.
  cbv zeta. split; [|split].
  - intros Hall. rewrite buildSrc_result, Hall.
    apply first_failure_none in Hall. rewrite Hall.
    now destruct (truthy_flag (ignoreErrors options)).
  - apply buildSrc_returned.
  - intros Hi. now rewrite buildSrc_result, Hi.
Qed.



(** C10. Without [ignoreErrors], [buildSrc] never returns [false]: it
    returns [true] when no file fails and is otherwise rejected with the
    error of the first failing file. *)
Theorem buildSrc_strict_never_false (options : BuildOptions) (w : World) :
  truthy_flag (ignoreErrors options) = false ->
  result (buildSrc config options tt w)
  = match first_failure (outcomes config (matched_scripts config w) w) with
    | None => Ok true
    | Some e => Throw e
    end
  /\ result (buildSrc config options tt w) <> Ok false.
Proof.
  intros Hi. rewrite buildSrc_result, Hi.
  destruct (first_failure _); split; try reflexivity; discriminate.
Qed.

(** C5. [buildDir] applies the callback to the matches one after the
    other, in scan order: its trace is the concatenation, in that order, of
    one block per processed match, made of the invocation of the callback
    on the match followed by all the events of that run, each run starting
    from the variables and the world left by the previous one; the
    processed matches are a prefix of the scan, the whole scan when
    [buildDir] is fulfilled, and [buildDir] is rejected with the error of
    the first run that is. *)
Theorem buildDir_sequential {L} (baseDir : StringOrArray) (pattern : string)
    (cb : string -> M L unit) (l : L) (w : World) :
  let matches :=
    globule_find (map (fun d => path_join d pattern) (castArray baseDir)) w in
  let runs := action_runs cb matches l w in
  trace (buildDir baseDir pattern cb l w)
  = flat_map (fun run => EvInvoke (fst run) :: trace (snd run)) runs
  /\ (exists rest, matches = map fst runs ++ rest)
  /\ result (buildDir baseDir pattern cb l w)
     = match first_failure (map (fun run => result (snd run)) runs) with
       | None => Ok tt
       | Some e => Throw e
       end
  /\ (result (buildDir baseDir pattern cb l w) = Ok tt -> map fst runs = matches).
Proof.
  cbv zeta. rewrite buildDir_loop.
  split; [apply loop_trace_runs|].
  split; [apply runs_prefix|].
  split; [apply loop_result_runs|].
  rewrite loop_result_runs. intros R. apply runs_complete.
  now destruct (first_failure _).
Qed.

End Batch.

(** ** Placement and diagnostics *)

Section Placement.
Context `{Host}.
Variable config : IProjectConfig.

Lemma logMessage_eq {L} rel m (l : L) w :
  logMessage rel m l w = mkOutcome (Ok tt) l w [message_event rel m].
Proof.
  unfold logMessage, message_event. destruct (type m); reflexivity.
Qed.

Lemma forEach_logMessage {L} rel ms (l : L) w :
  forEach ms (logMessage rel) l w = mkOutcome (Ok tt) l w (map (message_event rel) ms).
Proof.
  induction ms as [|m ms IH]; simpl; [reflexivity|].
  rewrite (bind_step _ _ _ _ _ _ _ _ (logMessage_eq rel m l w)).
  cbv zeta. now rewrite IH.
Qed.

Lemma message_event_level rel m :
  exists args, message_event rel m = EvLog (severity_level (type m)) args.
Proof. unfold message_event. destruct (type m); simpl; eauto. Qed.

(** [compilePlugin], step by step. *)
Lemma compilePlugin_steps filePath w :
  compilePlugin config filePath tt w =
  match plugin_destination config filePath with
  | Throw e => mkOutcome (Throw e) tt w []
  | Ok destDir =>
      let '(r1, w1) := mkdirp destDir w in
      match r1 with
      | Throw e => mkOutcome (Throw e) tt w1 [EvMkdirp destDir (Throw e)]
      | Ok _ =>
          let '(r2, w2) := amxxpc (plugin_options config filePath destDir) w1 in
          match r2 with
          | Throw e =>
              mkOutcome (Throw e) tt w2
                [EvMkdirp destDir r1; EvAmxxpc (plugin_options config filePath destDir) (Throw e)]
          | Ok r =>
              mkOutcome (fst (plugin_report filePath destDir r)) tt w2
                (EvMkdirp destDir r1 :: EvAmxxpc (plugin_options config filePath destDir) (Ok r)
                 :: snd (plugin_report filePath destDir r))
          end
      end
  end.
Proof.
  unfold compilePlugin. cbv zeta.
  set (m0 := if negb (flatCompilation (rules config)) then _ else _).
  assert (E0 : m0 tt w =
               match plugin_destination config filePath with
               | Ok d => mkOutcome (Ok d) tt w []
               | Throw e => mkOutcome (Throw e) tt w []
               end).
  { subst m0. unfold plugin_destination.
    destruct (flatCompilation (rules config)); cbn [negb]; [reflexivity|].
    destruct (findRelativePath (castArray (Str (in_scripts (input config))))
                (pdir (path_parse (path_resolve filePath)))) as [[|c rel]|];
      reflexivity. }
  destruct (plugin_destination config filePath) as [destDir|e].
  - rewrite (bind_step _ _ _ _ _ _ _ _ E0). cbv zeta. simpl app. rewrite outcome_eta.
    fold (plugin_options config filePath destDir).
    destruct (mkdirp destDir w) as [r1 w1] eqn:Emk.
    rewrite (bind_step _ _ _ _ _ _ _ _ (host_call_eq _ _ tt w _ _ Emk)).
    destruct r1 as [[]|e1]; [|reflexivity]. cbv zeta.
    destruct (amxxpc (plugin_options config filePath destDir) w1) as [r2 w2] eqn:Eam.
    rewrite (bind_step _ _ _ _ _ _ _ _ (host_call_eq _ _ tt w1 _ _ Eam)).
    destruct r2 as [r|e2]; [|reflexivity]. cbv zeta.
    rewrite (bind_step _ _ _ _ _ _ _ _ (forEach_logMessage _ _ tt w2)). cbv zeta.
    unfold plugin_report. cbv zeta.
    destruct (success r); simpl; [reflexivity|].
    now rewrite app_nil_r.
  - now rewrite (bind_step _ _ _ _ _ _ _ _ E0).
Qed.

End Placement.

Section FileOperations.
Context `{Host}.
Variable config : IProjectConfig.

Lemma sync_steps src dir dest line w :
  (host_call (mkdirp dir) (EvMkdirp dir) ;;
   host_call (copyFile src dest None) (EvCopyFile src dest None) ;;
   logger_info line) tt w
  = sync_outcome src dir dest line w.
Proof.
  unfold sync_outcome.
  destruct (mkdirp dir w) as [r1 w1] eqn:Emk.
  rewrite (bind_step _ _ _ _ _ _ _ _ (host_call_eq _ _ tt w _ _ Emk)).
  destruct r1 as [[]|e1]; [|reflexivity]. cbv zeta.
  destruct (copyFile src dest None w1) as [r2 w2] eqn:Ecp.
  rewrite (bind_step _ _ _ _ _ _ _ _ (host_call_eq _ _ tt w1 _ _ Ecp)).
  destruct r2 as [[]|e2]; reflexivity.
Qed.

Lemma sync_outcome_copies src dir dest line w :
  copies_to (sync_outcome src dir dest line w) src dir dest.
Proof.
  unfold sync_outcome, copies_to.
  destruct (mkdirp dir w) as [[[]|e1] w1].
  2:{ simpl. split; [|split].
      - intros s d m r [E|[]]; discriminate.
      - intros [|x pre] post s d m r E; simpl in E; [discriminate|].
        injection E as _ E. now destruct pre.
      - discriminate. }
  destruct (copyFile src dest None w1) as [r2 w2].
  assert (Hin : forall t s d m r,
             In (EvCopyFile s d m r)
                (EvMkdirp dir (Ok tt) :: EvCopyFile src dest None r2 :: t) ->
             Forall (fun e => match e with EvCopyFile _ _ _ _ => False | _ => True end) t ->
             s = src /\ d = dest /\ m = None).
  { intros t s d m r [E|[E|Hin]] Ht; [discriminate | now injection E as <- <- <- |].
    rewrite Forall_forall in Ht. now apply Ht in Hin. }
  assert (Hpre : forall t pre post s d m r,
             EvMkdirp dir (Ok tt) :: EvCopyFile src dest None r2 :: t
             = pre ++ EvCopyFile s d m r :: post ->
             Forall (fun e => match e with EvCopyFile _ _ _ _ => False | _ => True end) t ->
             In (EvMkdirp dir (Ok tt)) pre).
  { intros t pre post s d m r E Ht.
    destruct pre as [|x pre]; simpl in E; [discriminate|].
    injection E as <- E. now left. }
  destruct r2 as [[]|e2]; cbn [trace result]; (split; [|split]).
  - intros s d m r Hi. eapply Hin; [exact Hi|]. repeat constructor.
  - intros pre post s d m r E. eapply Hpre; [exact E|]. repeat constructor.
  - intros _. right. now left.
  - intros s d m r Hi. eapply Hin; [exact Hi|]. constructor.
  - intros pre post s d m r E. eapply Hpre; [exact E|]. constructor.
  - discriminate.
Qed.

Lemma findRelativePath_none bases target :
  findRelativePath bases target = None <->
  forallb (fun b => negb (is_ancestor b target)) bases = true.
Proof.
  induction bases as [|b bases IH]; simpl; [tauto|].
  destruct (is_ancestor b target); simpl; [split; discriminate | exact IH].
Qed.

Lemma sync_outcome_placed src d dest line w :
  placed (sync_outcome src d dest line w) w src d dest.
Proof.
  split; [apply sync_outcome_copies|].
  unfold sync_outcome.
  destruct (mkdirp d w) as [[[]|e1] w1] eqn:Emk.
  2:{ cbn [result world trace]. split; [discriminate|]. split.
      - intros w1' w2 [=].
      - intros e w1' [= <- <-]. auto. }
  destruct (copyFile src dest None w1) as [[[]|e2] w2] eqn:Ecp; cbn [result world trace].
  - split; [intros _; now exists w1|]. split.
    + intros w1' w2' [= <-] Ecp'. rewrite Ecp in Ecp'. injection Ecp' as <-. auto.
    + intros e w1' [=].
  - split; [discriminate|]. split.
    + intros w1' w2' [= <-] Ecp'. rewrite Ecp in Ecp'. discriminate.
    + intros e w1' [=].
Qed.

(** C9. Every synced file is placed where its caller's rule says, by the
    creation of a directory followed by a copy in the default mode of
    [copyFile], which replaces an existing destination.  A script (when a
    scripts output root is configured) and an include file are copied to
    their output root joined with the base name of the file, after the
    creation of that root; an asset is copied to the assets output root
    joined with its path relative to the assets input root, after the
    creation of the directory of that destination.  Each operation is
    exactly these two calls to the host and the line it logs on
    success. *)
Theorem sync_destinations (filePath : string) (w : World) :
  let src := path_resolve filePath in
  let base := pbase (path_parse filePath) in
  (truthy_string (out_scripts (output_ config)) = true ->
   let root := out_scripts (output_ config) in
   updateScript config filePath tt w
   = sync_outcome src root (path_join root base)
       [AStr "Script updated:"; AStr (normalizePath (path_join root base))] w
   /\ placed (updateScript config filePath tt w) w src root (path_join root base))
  /\ (let root := out_include (output_ config) in
      updateInclude config filePath tt w
      = sync_outcome src root (path_join root base)
          [AStr "Include updated:"; AStr (normalizePath (path_join root base))] w
      /\ placed (updateInclude config filePath tt w) w src root (path_join root base))
  /\ (forall rel,
        findRelativePath (castArray (Str (in_assets (input config)))) filePath = Some rel ->
        truthy_string rel = true ->
        let dest := path_join (out_assets (output_ config)) rel in
        updateAsset config filePath tt w
        = sync_outcome src (pdir (path_parse dest)) dest
            [AStr "Asset updated"; AStr (normalizePath dest)] w
        /\ placed (updateAsset config filePath tt w) w src (pdir (path_parse dest)) dest).
Proof.
  cbv zeta. split; [|split].
  - intros Hs.
    assert (E : updateScript config filePath tt w
                = sync_outcome (path_resolve filePath) (out_scripts (output_ config))
                    (path_join (out_scripts (output_ config)) (pbase (path_parse filePath)))
                    [AStr "Script updated:";
                     AStr (normalizePath
                             (path_join (out_scripts (output_ config))
                                (pbase (path_parse filePath))))] w).
    { unfold updateScript. rewrite Hs. cbn [negb]. cbv zeta. apply sync_steps. }
    split; [exact E | rewrite E; apply sync_outcome_placed].
  - assert (E : updateInclude config filePath tt w
                = sync_outcome (path_resolve filePath) (out_include (output_ config))
                    (path_join (out_include (output_ config)) (pbase (path_parse filePath)))
                    [AStr "Include updated:";
                     AStr (normalizePath
                             (path_join (out_include (output_ config))
                                (pbase (path_parse filePath))))] w).
    { unfold updateInclude. cbv zeta. apply sync_steps. }
    split; [exact E | rewrite E; apply sync_outcome_placed].
  - intros rel Hrel Ht.
    assert (E : updateAsset config filePath tt w
                = sync_outcome (path_resolve filePath)
                    (pdir (path_parse (path_join (out_assets (output_ config)) rel)))
                    (path_join (out_assets (output_ config)) rel)
                    [AStr "Asset updated";
                     AStr (normalizePath (path_join (out_assets (output_ config)) rel))] w).
    { unfold updateAsset. cbv zeta. rewrite Hrel, Ht. cbn [negb]. apply sync_steps. }
    split; [exact E | rewrite E; apply sync_outcome_placed].
Qed.

End FileOperations.

(** ** Compilation of a plugin *)

Section Compilation.
Context `{Host}.
Variable config : IProjectConfig.

Lemma report_is_log filePath destDir r :
  Forall is_log (snd (plugin_report filePath destDir r)).
Proof.
  unfold plugin_report. cbv zeta.
  assert (Hm : forall rel ms, Forall is_log (map (message_event rel) ms)).
  { intros rel ms. apply Forall_forall. intros e He.
    apply in_map_iff in He as (m & <- & _).
    destruct (message_event_level rel m) as [args ->]. exact I. }
  destruct (success r); cbn [snd]; [|apply Hm].
  apply Forall_app; split; [apply Hm | repeat constructor].
Qed.

(** The compiler is called at most once by [compilePlugin], after the
    creation of the destination directory. *)
Lemma compilePlugin_call filePath w opts r :
  In (EvAmxxpc opts r) (trace (compilePlugin config filePath tt w)) ->
  exists destDir,
    plugin_destination config filePath = Ok destDir
    /\ opts = plugin_options config filePath destDir
    /\ trace (compilePlugin config filePath tt w)
       = EvMkdirp destDir (Ok tt) :: EvAmxxpc opts r ::
         match r with
         | Ok r' => snd (plugin_report filePath destDir r')
         | Throw _ => []
         end
    /\ result (compilePlugin config filePath tt w)
       = match r with
         | Ok r' => fst (plugin_report filePath destDir r')
         | Throw e => Throw e
         end.
Proof.
  rewrite compilePlugin_steps.
  destruct (plugin_destination config filePath) as [destDir|e]; [|intros []].
  destruct (mkdirp destDir w) as [[[]|e1] w1].
  2:{ intros [E|[]]; discriminate. }
  destruct (amxxpc (plugin_options config filePath destDir) w1) as [[r2|e2] w2];
    cbn [trace result].
  - intros [E|[E|Hin]]; [discriminate | |].
    + injection E as <- <-. exists destDir. auto.
    + pose proof (report_is_log filePath destDir r2) as Hl.
      rewrite Forall_forall in Hl. now apply Hl in Hin.
  - intros [E|[E|[]]]; [discriminate|].
    injection E as <- <-. exists destDir. auto.
Qed.

(** C6. Once the compiler has returned a result, [compilePlugin] logs one
    line per diagnostic message, in order and right after the call, at the
    level of its severity: the error level for FatalError and Error, the
    warning level for Warning, the debug level for Echo.  The messages play
    no part in the outcome: the operation fails exactly when the success
    flag of the result is false. *)
Theorem compilePlugin_diagnostics (filePath : string) (w : World)
    (opts : AMXPCOptions) (r : AMXPCResult) :
  In (EvAmxxpc opts (Ok r)) (trace (compilePlugin config filePath tt w)) ->
  (exists pre logged rest,
     trace (compilePlugin config filePath tt w)
     = pre ++ EvAmxxpc opts (Ok r) :: logged ++ rest
     /\ Forall2 (fun m ev => exists args, ev = EvLog (severity_level (type m)) args)
                (messages (output r)) logged
     /\ rest = if success r
               then [EvLog LSuccess [AStr "Compilation success:";
                                     AStr (normalizePath (path_relative cwd filePath))];
                     EvLog LInfo [AStr "Plugin updated:";
                                  AStr (normalizePath (path_join (dest opts) (plugin r)))]]
               else [])
  /\ is_ok (result (compilePlugin config filePath tt w)) = success r.
Proof.
  intros Hin.
  destruct (compilePlugin_call filePath w opts (Ok r) Hin) as (destDir & _ & Eo & Et & Er).
  rewrite Et, Er. unfold plugin_report. cbv zeta. split.
  - exists [EvMkdirp destDir (Ok tt)],
      (map (message_event (path_relative cwd (path_resolve filePath))) (messages (output r))),
      (if success r
       then [EvLog LSuccess [AStr "Compilation success:";
                             AStr (normalizePath (path_relative cwd filePath))];
             EvLog LInfo [AStr "Plugin updated:";
                          AStr (normalizePath (path_join destDir (plugin r)))]]
       else []).
    split; [|split].
    + destruct (success r); cbn [snd app]; [reflexivity | now rewrite app_nil_r].
    + induction (messages (output r)) as [|m ms IH]; simpl; constructor; auto.
      apply message_event_level.
    + rewrite Eo. reflexivity.
  - now destruct (success r).
Qed.

(** C8. A script that [compilePlugin] compiles is compiled into the
    plugins output root itself under the flat rule, and otherwise into that
    root joined with the path of the script's directory relative to the
    scripts input root; the directory has been created before the compiler
    runs.  A plugin compile that succeeds did call the compiler. *)
Theorem compilePlugin_destination (filePath : string) (w : World) :
  let o := compilePlugin config filePath tt w in
  let root := path_resolve (out_plugins (output_ config)) in
  (forall opts r,
     In (EvAmxxpc opts r) (trace o) ->
     path opts = path_resolve filePath
     /\ (if flatCompilation (rules config)
         then dest opts = root
         else exists rel,
             findRelativePath (castArray (Str (in_scripts (input config))))
                              (pdir (path_parse (path_resolve filePath))) = Some rel
             /\ dest opts = path_join root rel)
     /\ exists post, trace o = EvMkdirp (dest opts) (Ok tt) :: EvAmxxpc opts r :: post)
  /\ (result o = Ok tt ->
      exists opts r, In (EvAmxxpc opts (Ok r)) (trace o) /\ success r = true).
Proof.
  cbv zeta. split.
  - intros opts r Hin.
    destruct (compilePlugin_call filePath w opts r Hin) as (destDir & Ed & Eo & Et & _).
    rewrite Eo. cbn [path dest plugin_options].
    split; [reflexivity|]. split.
    + unfold plugin_destination in Ed. cbv zeta in Ed.
      destruct (flatCompilation (rules config)); [now injection Ed as <-|].
      destruct (findRelativePath _ _) as [[|c rel]|]; try discriminate.
      injection Ed as <-. eauto.
    + rewrite Et, Eo. eauto.
  - rewrite compilePlugin_steps.
    destruct (plugin_destination config filePath) as [destDir|e]; [|discriminate].
    destruct (mkdirp destDir w) as [[[]|e1] w1]; [|discriminate].
    destruct (amxxpc (plugin_options config filePath destDir) w1) as [[r2|e2] w2];
      cbn [trace result]; [|discriminate].
    intros R. exists (plugin_options config filePath destDir), r2.
    split; [right; now left|].
    unfold plugin_report in R. cbv zeta in R. now destruct (success r2).
Qed.

(** C7, as the code has it.  An asset copy fails, with an error naming the
    file and before anything is created or copied, when no assets input
    directory is an ancestor of the file.  Under the mirrored (non-flat)
    rule a plugin compile fails in the same way, before any directory is
    created or the compiler called, when no scripts input directory is an
    ancestor of the script; the code looks for an ancestor of the directory
    of the script, and the paths are taken to be such that a scripts input
    directory that is an ancestor of the directory of the script is an
    ancestor of the script.  Under the flat rule a plugin compile resolves
    no path: whatever the input directories are, the script is compiled
    into the plugins output root and the operation succeeds when the
    creation of that root and the compilation do. *)
Theorem unresolved_path_fails (filePath : string) (w : World) :
  (forallb (fun b => negb (is_ancestor b filePath))
           (castArray (Str (in_assets (input config)))) = true ->
   updateAsset config filePath tt w
   = mkOutcome
       (Throw (mkError ("Cannot find relative path for asset "
                        ++ dquote ++ filePath ++ dquote)%string))
       tt w [])
  /\ (flatCompilation (rules config) = false ->
      (forall b, In b (castArray (Str (in_scripts (input config)))) ->
         is_ancestor b (pdir (path_parse (path_resolve filePath))) = true ->
         is_ancestor b filePath = true) ->
      forallb (fun b => negb (is_ancestor b filePath))
              (castArray (Str (in_scripts (input config)))) = true ->
      compilePlugin config filePath tt w
      = mkOutcome
          (Throw (mkError ("Cannot find relative path for plugin "
                           ++ dquote ++ filePath ++ dquote)%string))
          tt w [])
  /\ (flatCompilation (rules config) = true ->
      let root := path_resolve (out_plugins (output_ config)) in
      (forall opts r, In (EvAmxxpc opts r) (trace (compilePlugin config filePath tt w)) ->
                      dest opts = root)
      /\ forall w1 r w2,
          mkdirp root w = (Ok tt, w1) ->
          amxxpc (plugin_options config filePath root) w1 = (Ok r, w2) ->
          success r = true ->
          result (compilePlugin config filePath tt w) = Ok tt
          /\ world (compilePlugin config filePath tt w) = w2
          /\ In (EvAmxxpc (plugin_options config filePath root) (Ok r))
                (trace (compilePlugin config filePath tt w))).
Proof.
  split; [|split].
  - intros Hn. apply findRelativePath_none in Hn.
    unfold updateAsset. cbv zeta. now rewrite Hn.
  - intros Hf Hlaw Hn.
    assert (Hd : findRelativePath (castArray (Str (in_scripts (input config))))
                   (pdir (path_parse (path_resolve filePath))) = None).
    { apply findRelativePath_none, forallb_forall. intros b Hb.
      rewrite forallb_forall in Hn. specialize (Hn b Hb).
      destruct (is_ancestor b (pdir (path_parse (path_resolve filePath)))) eqn:Ea;
        [|reflexivity].
      rewrite (Hlaw b Hb Ea) in Hn. discriminate. }
    rewrite compilePlugin_steps. unfold plugin_destination. cbv zeta.
    now rewrite Hf, Hd.
  - intros Hf. cbv zeta. split.
    + intros opts r Hin.
      destruct (compilePlugin_call filePath w opts r Hin) as (destDir & Ed & -> & _).
      unfold plugin_destination in Ed. cbv zeta in Ed. rewrite Hf in Ed.
      now injection Ed as <-.
    + intros w1 r w2 Emk Eam Hs.
      rewrite compilePlugin_steps. unfold plugin_destination. cbv zeta.
      rewrite Hf, Emk, Eam. cbn [result world trace].
      unfold plugin_report. cbv zeta. rewrite Hs. cbn [fst].
      split; [reflexivity|]. split; [reflexivity|]. right. now left.
Qed.

End Compilation.

(** ** The terminal status line *)

Section Terminal.
Context `{Host}.
Variable config : IProjectConfig.

Lemma terminal_lines_quiet (t : list Event) : Forall quiet t -> terminal_lines t = [].
Proof.
  induction 1 as [|e t He _ IH]; simpl; [reflexivity|].
  unfold quiet in He. now rewrite He.
Qed.

Lemma buildDir_events {L} (P : Event -> Prop) baseDir pattern (cb : string -> M L unit) :
  (forall f, P (EvInvoke f)) -> (forall f, emits P (cb f)) ->
  emits P (buildDir baseDir pattern cb).
Proof.
  intros Hi Hcb l w. rewrite buildDir_loop.
  apply emits_forEach. intro f. apply emits_bind; [now apply emits_emit | auto].
Qed.

Lemma file_event_quiet {L A} (m : M L A) : emits file_event m -> emits quiet m.
Proof. intros Hm l w. eapply Forall_impl; [|apply Hm]. now intros e [_ He]. Qed.

Lemma buildAssets_quiet : emits quiet (buildAssets config).
Proof.
  unfold buildAssets. destruct (negb _); [apply emits_ret|].
  apply buildDir_events; [reflexivity|].
  intro f. apply file_event_quiet, updateAsset_events.
Qed.

Lemma buildInclude_quiet : emits quiet (buildInclude config).
Proof.
  apply buildDir_events; [reflexivity|].
  intro f. apply file_event_quiet, updateInclude_events.
Qed.

Lemma buildSrc_quiet options : emits quiet (buildSrc config options).
Proof.
  unfold buildSrc. apply emits_let_mut, emits_bind; [|intro; apply emits_get_var].
  apply buildDir_events; [reflexivity|].
  intro f. apply emits_try_catch.
  - apply emits_lift, file_event_quiet, updatePlugin_events.
  - intro e. destruct (negb _); [apply emits_throw | apply emits_set_var].
Qed.

(** [build], step by step. *)
Lemma build_steps options w :
  let oA := buildAssets config tt w in
  let oI := buildInclude config tt (world oA) in
  let oS := buildSrc config options tt (world oI) in
  let start := EvLog LInfo [AStr "Building..."] in
  build config options tt w =
  match result oA with
  | Throw e => mkOutcome (Throw e) tt (world oA) (start :: trace oA)
  | Ok _ =>
      match result oI with
      | Throw e => mkOutcome (Throw e) tt (world oI) (start :: trace oA ++ trace oI)
      | Ok _ =>
          match result oS with
          | Throw e =>
              mkOutcome (Throw e) tt (world oS) (start :: trace oA ++ trace oI ++ trace oS)
          | Ok b =>
              mkOutcome (Ok tt) tt (world oS)
                (start :: trace oA ++ trace oI ++ trace oS
                       ++ [if b then success_line else errors_line])
          end
      end
  end.
Proof.
  cbv zeta. unfold build.
  rewrite (bind_step _ _ _ _ (Ok tt) tt w [EvLog LInfo [AStr "Building..."]] eq_refl).
  cbv zeta.
  destruct (buildAssets config tt w) as [rA [] wA tA] eqn:EA.
  rewrite (bind_step _ _ _ _ _ _ _ _ EA). cbn [result world trace].
  destruct rA as [[]|eA]; [|reflexivity]. cbv zeta.
  destruct (buildInclude config tt wA) as [rI [] wI tI] eqn:EI.
  rewrite (bind_step _ _ _ _ _ _ _ _ EI). cbn [result world trace].
  destruct rI as [[]|eI]; [|reflexivity]. cbv zeta.
  destruct (buildSrc config options tt wI) as [rS [] wS tS] eqn:ES.
  rewrite (bind_step _ _ _ _ _ _ _ _ ES). cbn [result world trace].
  destruct rS as [b|eS]; [|reflexivity]. cbv zeta.
  destruct b; reflexivity.
Qed.

(** C2, as the code has it.  A [build] that returns has logged exactly one
    terminal status line, as its last event and hence after every
    diagnostic: the success line when every per-file operation of the
    scripts batch succeeded, the line of the errors otherwise.  A [build]
    that is rejected, as it is when a file fails without [ignoreErrors], has
    logged no terminal status line. *)
Theorem build_terminal_line (options : BuildOptions) (w : World) :
  let o := build config options tt w in
  let w' := before_scripts config w in
  let all_ok := forallb is_ok (outcomes config (matched_scripts config w') w') in
  (result o = Ok tt ->
   exists body,
     trace o = body ++ [if all_ok then success_line else errors_line]
     /\ terminal_lines body = [])
  /\ (forall e, result o = Throw e -> terminal_lines (trace o) = []).
Proof.
  cbv zeta. rewrite build_steps. cbv zeta. unfold before_scripts.
  pose proof (buildAssets_quiet tt w) as QA.
  pose proof (buildInclude_quiet tt (world (buildAssets config tt w))) as QI.
  set (wI := world (buildInclude config tt (world (buildAssets config tt w)))) in *.
  pose proof (buildSrc_quiet options tt wI) as QS.
  assert (Q0 : quiet (EvLog LInfo [AStr "Building..."])) by reflexivity.
  destruct (result (buildAssets config tt w)) as [[]|eA].
  2:{ cbn [result trace]. split; [discriminate|]. intros _ _.
      apply terminal_lines_quiet. now constructor. }
  destruct (result (buildInclude config tt (world (buildAssets config tt w)))) as [[]|eI].
  2:{ cbn [result trace]. split; [discriminate|]. intros _ _.
      apply terminal_lines_quiet. constructor; [exact Q0|].
      apply Forall_app; now split. }
  destruct (result (buildSrc config options tt wI)) as [b|eS] eqn:ES.
  2:{ cbn [result trace]. split; [discriminate|]. intros _ _.
      apply terminal_lines_quiet. constructor; [exact Q0|].
      rewrite !Forall_app. auto. }
  cbn [result trace]. split; [|discriminate]. intros _.
  rewrite <- (buildSrc_returned config options wI b ES).
  exists (EvLog LInfo [AStr "Building..."]
            :: trace (buildAssets config tt w)
            ++ trace (buildInclude config tt (world (buildAssets config tt w)))
            ++ trace (buildSrc config options tt wI)).
  split.
  - cbn [app]. f_equal. now rewrite <- !app_assoc.
  - apply terminal_lines_quiet. constructor; [exact Q0|].
    rewrite !Forall_app. auto.
Qed.

End Terminal.

(** ** The properties on the concrete host *)

Import Fake.

(** The scripts batch of [project] under the flat rule: [a.sma] compiles,
    [b.sma] fails, [maps/de_dust.sma] compiles with a warning. *)
Example project_outcomes :
  @matched_scripts host (config true) project
  = ["src/scripts/a.sma"; "src/scripts/b.sma"; "src/scripts/maps/de_dust.sma"]
  /\ @outcomes host (config true) (@matched_scripts host (config true) project) project
     = [Ok tt; Throw b_failure; Ok tt].
Proof. split; vm_compute; reflexivity. Qed.

Lemma buildSrc_aggregate_witness :
  @result host _ _ (@buildSrc host (config true) tolerant tt project) = Ok false
  /\ @result host _ _ (@buildSrc host (config true) strict tt clean_project) = Ok true.
Proof.
  split.
  - destruct (@buildSrc_aggregate host (config true) tolerant project) as (_ & _ & Ht).
    rewrite (Ht eq_refl). vm_compute. reflexivity.
  - destruct (@buildSrc_aggregate host (config true) strict clean_project) as (Ha & _ & _).
    apply Ha. vm_compute. reflexivity.
Defined.



Lemma buildSrc_strict_never_false_witness :
  @result host _ _ (@buildSrc host (config true) strict tt project) = Throw b_failure
  /\ @result host _ _ (@buildSrc host (config true) strict tt project) <> Ok false.
Proof.
  destruct (@buildSrc_strict_never_false host (config true) strict project eq_refl)
    as (Hr & Hn).
  split; [rewrite Hr; vm_compute; reflexivity | exact Hn].
Defined.

(** The scripts of [project] are synced one after the other. *)
Lemma buildDir_sequential_witness :
  invocations
    (@trace host _ _
       (@buildDir host unit (Str "src/scripts") "**/*.sma"
          (@updateScript host (config true)) tt project))
  = ["src/scripts/a.sma"; "src/scripts/b.sma"; "src/scripts/maps/de_dust.sma"].
Proof.
  destruct (@buildDir_sequential host unit (Str "src/scripts") "**/*.sma"
              (@updateScript host (config true)) tt project) as (Ht & _).
  rewrite Ht. vm_compute. reflexivity.
Defined.

Lemma compilePlugin_diagnostics_witness :
  In (EvLog LWarn [AStr "src/scripts/maps/de_dust.sma(3)"; AType Warning; AStr "203";
                   AStr ":"; AStr "symbol is never used"])
     (@trace host _ _
        (@compilePlugin host (config false) "src/scripts/maps/de_dust.sma" tt project))
  /\ is_ok (@result host _ _
        (@compilePlugin host (config false) "src/scripts/maps/de_dust.sma" tt project))
     = true.
Proof.
  assert (Hin : In (EvAmxxpc de_dust_options (Ok de_dust_result))
                  (@trace host _ _
                     (@compilePlugin host (config false)
                        "src/scripts/maps/de_dust.sma" tt project))).
  { vm_compute. right. left. reflexivity. }
  destruct (@compilePlugin_diagnostics host (config false)
              "src/scripts/maps/de_dust.sma" project de_dust_options de_dust_result Hin)
    as (_ & Hok).
  split; [|exact Hok].
  vm_compute. right. right. left. reflexivity.
Defined.

(** The spec's scenario: [src/scripts/maps/de_dust.sma] is compiled into
    [output_plugins/maps] under the mirrored rule. *)
Lemma compilePlugin_destination_witness :
  exists opts r,
    In (EvAmxxpc opts (Ok r))
       (@trace host _ _
          (@compilePlugin host (config false) "src/scripts/maps/de_dust.sma" tt project))
    /\ dest opts = "/proj/output_plugins/maps"
    /\ plugin r = "de_dust.amxx".
Proof.
  destruct (@compilePlugin_destination host (config false)
              "src/scripts/maps/de_dust.sma" project) as (Hd & Hs).
  destruct (Hs eq_refl) as (opts & r & Hin & _).
  exists opts, r. split; [exact Hin|].
  destruct (Hd opts (Ok r) Hin) as (_ & (rel & Hrel & Hdest) & _).
  vm_compute in Hrel. injection Hrel as <-.
  split; [rewrite Hdest; vm_compute; reflexivity|].
  vm_compute in Hin. destruct Hin as [E|[E|[E|[E|[E|[]]]]]]; try discriminate.
  now injection E as _ <-.
Defined.

(** The spec's scenario: [assets/textures/foo.wad] is copied to
    [output_assets/textures/foo.wad]; a script and an include file are
    copied under their base name; each replaces the stale file found at its
    destination. *)
Lemma sync_destinations_witness :
  (read (files Variants.stale_project) "/proj/dist/scripts/de_dust.sma" = Some "stale"
   /\ read (files (@world host _ _
         (@updateScript host (config false) "src/scripts/maps/de_dust.sma" tt
            Variants.stale_project)))
        "/proj/dist/scripts/de_dust.sma" = Some "warn")
  /\ (read (files Variants.stale_project) "/proj/dist/include/util.inc" = Some "stale"
      /\ read (files (@world host _ _
            (@updateInclude host (config false) "src/include/util.inc" tt
               Variants.stale_project)))
           "/proj/dist/include/util.inc" = Some "stock util")
  /\ (read (files Variants.stale_project) "/proj/output_assets/textures/foo.wad"
      = Some "stale"
      /\ read (files (@world host _ _
            (@updateAsset host (config false) "assets/textures/foo.wad" tt
               Variants.stale_project)))
           "/proj/output_assets/textures/foo.wad" = Some "wad").
Proof.
  destruct (@sync_destinations host (config false) "src/scripts/maps/de_dust.sma"
              Variants.stale_project) as (Hs & _ & _).
  destruct (@sync_destinations host (config false) "src/include/util.inc"
              Variants.stale_project) as (_ & (Ei & _) & _).
  destruct (@sync_destinations host (config false) "assets/textures/foo.wad"
              Variants.stale_project) as (_ & _ & Ha).
  destruct (Hs eq_refl) as (Es & _).
  destruct (Ha "textures/foo.wad" eq_refl eq_refl) as (Ea & _).
  split; [|split]; (split; [vm_compute; reflexivity|]).
  - rewrite Es. vm_compute. reflexivity.
  - rewrite Ei. vm_compute. reflexivity.
  - rewrite Ea. vm_compute. reflexivity.
Defined.

Lemma unresolved_path_fails_witness :
  is_ok (@result host _ _ (@updateAsset host (config true) "/elsewhere/logo.png" tt stray_project))
  = false
  /\ is_ok (@result host _ _
       (@compilePlugin host (config false) "/elsewhere/x.sma" tt stray_project)) = false
  /\ @world host _ _ (@compilePlugin host (config true) "/elsewhere/x.sma" tt stray_project)
     = {| files := [ ("/elsewhere/x.sma", "plugin x"); ("/elsewhere/logo.png", "png");
                     ("/proj/output_plugins/x.amxx", "amxx") ];
          dirs := ["/proj/output_plugins"] |}.
Proof.
  destruct (@unresolved_path_fails host (config true) "/elsewhere/logo.png" stray_project)
    as (Ha & _).
  destruct (@unresolved_path_fails host (config false) "/elsewhere/x.sma" stray_project)
    as (_ & Hc & _).
  destruct (@unresolved_path_fails host (config true) "/elsewhere/x.sma" stray_project)
    as (_ & _ & Hflat).
  split; [rewrite (Ha eq_refl); reflexivity|]. split.
  - rewrite Hc; [reflexivity | reflexivity | | reflexivity].
    intros b [<-|[]] Hb. vm_compute in Hb. discriminate.
  - destruct (Hflat eq_refl) as (_ & Hrun).
    destruct (Hrun {| files := files stray_project; dirs := ["/proj/output_plugins"] |}
                {| success := true; plugin := "x.amxx"; error := None;
                   output := {| messages := [] |} |}
                {| files := [ ("/elsewhere/x.sma", "plugin x"); ("/elsewhere/logo.png", "png");
                              ("/proj/output_plugins/x.amxx", "amxx") ];
                   dirs := ["/proj/output_plugins"] |}
                eq_refl eq_refl eq_refl) as (_ & Hw & _).
    exact Hw.
Defined.

(** C7 as stated fails under the flat rule: the script lies under none of
    the configured input directories, and its compilation succeeds, into
    the plugins output root. *)
Lemma flat_compile_of_stray_script_succeeds :
  forallb (fun b => negb (@is_ancestor host b "/elsewhere/x.sma"))
          ["src/scripts"; "src/include"; "assets"] = true
  /\ @result host _ _ (@compilePlugin host (config true) "/elsewhere/x.sma" tt stray_project)
     = Ok tt
  /\ read (files (@world host _ _
        (@compilePlugin host (config true) "/elsewhere/x.sma" tt stray_project)))
       "/proj/output_plugins/x.amxx" = Some "amxx".
Proof. repeat split; vm_compute; reflexivity. Qed.

Lemma build_terminal_line_witness :
  @ends_with_one_terminal_line
    (@trace host _ _ (@build host (config true) tolerant tt project))
  /\ terminal_lines (@trace host _ _ (@build host (config true) strict tt project)) = [].
Proof.
  destruct (@build_terminal_line host (config true) tolerant project) as (Hok & _).
  destruct (@build_terminal_line host (config true) strict project) as (_ & Hthrow).
  split.
  - destruct (Hok eq_refl) as (body & Et & Hb).
    exists body, errors_line. split; [|split; [reflexivity | exact Hb]].
    rewrite Et. f_equal.
  - apply (Hthrow b_failure). vm_compute. reflexivity.
Defined.

(** C2 as stated fails: without [ignoreErrors], the failure of [b.sma]
    rejects [build], whose last event is the diagnostic of the compiler and
    which logs no terminal status line. *)
Lemma strict_build_has_no_terminal_line :
  @result host _ _ (@build host (config true) strict tt project) = Throw b_failure
  /\ ~ @ends_with_one_terminal_line
         (@trace host _ _ (@build host (config true) strict tt project)).
Proof.
  split; [vm_compute; reflexivity|].
  intros (body & line & Et & Hl & _).
  apply (f_equal (fun t => last t (EvInvoke EmptyString))) in Et.
  rewrite last_last in Et. rewrite <- Et in Hl.
  vm_compute in Hl. discriminate.
Qed.

(** ** Further properties of the per-file operations *)

Section PerFile.
Context `{Host}.
Variable config : IProjectConfig.

Lemma updateScript_no_compile f : emits not_compile (updateScript config f).
Proof.
  unfold updateScript, logger_info. repeat (cbv zeta; emits_step); exact I.
Qed.

Lemma updateInclude_no_compile f : emits not_compile (updateInclude config f).
Proof.
  unfold updateInclude, logger_info. repeat (cbv zeta; emits_step); exact I.
Qed.

Lemma updateAsset_no_compile f : emits not_compile (updateAsset config f).
Proof.
  unfold updateAsset, logger_info. repeat (cbv zeta; emits_step); exact I.
Qed.

Lemma no_compile_in (t : list Event) opts r :
  Forall not_compile t -> ~ In (EvAmxxpc opts r) t.
Proof. intros Ht Hin. rewrite Forall_forall in Ht. exact (Ht _ Hin). Qed.

Lemma compiler_calls_app (t1 t2 : list Event) :
  compiler_calls (t1 ++ t2) = compiler_calls t1 + compiler_calls t2.
Proof.
  induction t1 as [|e t1 IH]; simpl; [reflexivity|].
  destruct e; simpl; now rewrite ?IH.
Qed.

Lemma compiler_calls_logs (t : list Event) : Forall is_log t -> compiler_calls t = 0.
Proof.
  induction 1 as [|e t He _ IH]; simpl; [reflexivity|].
  destruct e; simpl in *; tauto.
Qed.

(** [updatePlugin], step by step. *)
Lemma updatePlugin_steps f w :
  updatePlugin config f tt w =
  let oS := updateScript config f tt w in
  match result oS with
  | Ok _ =>
      let oC := compilePlugin config f tt (world oS) in
      mkOutcome (result oC) tt (world oC) (trace oS ++ trace oC)
  | Throw e => mkOutcome (Throw e) tt (world oS) (trace oS)
  end.
Proof.
  cbv zeta. unfold updatePlugin, bind.
  destruct (updateScript config f tt w) as [rS [] wS tS]. cbn [result locals world trace].
  destruct rS as [[]|e]; [|reflexivity].
  now destruct (locals (compilePlugin config f tt wS)).
Qed.

(** X1. [updatePlugin] copies the script before it compiles it.  When the
    copy fails, the operation fails with the error of the copy, nothing
    else happens and the compiler is not called; when the copy succeeds,
    the script is compiled in the world the copy left and the compilation
    decides the outcome. *)
Theorem updatePlugin_copy_then_compile (filePath : string) (w : World) :
  let oS := updateScript config filePath tt w in
  (forall e, result oS = Throw e ->
     updatePlugin config filePath tt w = oS
     /\ compiler_calls (trace (updatePlugin config filePath tt w)) = 0)
  /\ (result oS = Ok tt ->
      let oC := compilePlugin config filePath tt (world oS) in
      result (updatePlugin config filePath tt w) = result oC
      /\ world (updatePlugin config filePath tt w) = world oC
      /\ trace (updatePlugin config filePath tt w) = trace oS ++ trace oC).
Proof.
  cbv zeta. rewrite updatePlugin_steps. cbv zeta. split.
  - intros e He. rewrite He.
    assert (Hc : compiler_calls (trace (updateScript config filePath tt w)) = 0).
    { pose proof (updateScript_no_compile filePath tt w) as Hn.
      induction Hn as [|x t Hx _ IH]; simpl; [reflexivity|].
      destruct x; simpl in *; tauto. }
    split; [|exact Hc].
    destruct (updateScript config filePath tt w) as [rS [] wS tS].
    cbn [result world trace] in *. now subst rS.
  - intros Hok. rewrite Hok. auto.
Qed.

(** X2. Without a scripts output directory, [updateScript] does nothing at
    all and [updatePlugin] is the compilation alone. *)
Theorem updatePlugin_without_scripts_output (filePath : string) (w : World) :
  truthy_string (out_scripts (output_ config)) = false ->
  updateScript config filePath tt w = mkOutcome (Ok tt) tt w []
  /\ updatePlugin config filePath tt w = compilePlugin config filePath tt w.
Proof.
  intros Hs.
  assert (E : updateScript config filePath tt w = mkOutcome (Ok tt) tt w []).
  { unfold updateScript. now rewrite Hs. }
  split; [exact E|].
  rewrite updatePlugin_steps, E. cbv zeta. cbn [result world trace app].
  destruct (compilePlugin config filePath tt w) as [r [] w' t]. reflexivity.
Qed.

(** X3. [compilePlugin] copies no file and calls the compiler at most
    once.  A failure of the creation of the destination directory fails
    the operation with that error before the compiler is called; a
    rejection by the compiler fails it with that error and nothing is
    logged. *)
Theorem compilePlugin_effects (filePath : string) (w : World) :
  let o := compilePlugin config filePath tt w in
  Forall not_copy (trace o)
  /\ compiler_calls (trace o) <= 1
  /\ (forall d e, In (EvMkdirp d (Throw e)) (trace o) ->
        result o = Throw e /\ compiler_calls (trace o) = 0)
  /\ (forall opts e, In (EvAmxxpc opts (Throw e)) (trace o) ->
        result o = Throw e /\ forall lvl args, ~ In (EvLog lvl args) (trace o)).
Proof.
  cbv zeta. rewrite compilePlugin_steps.
  destruct (plugin_destination config filePath) as [destDir|e0].
  2:{ cbn [trace]. split; [constructor|]. split; [simpl; lia|].
      split; [intros d e [] | intros opts e []]. }
  destruct (mkdirp destDir w) as [[[]|e1] w1].
  2:{ cbn [trace result]. split; [repeat constructor|]. split; [simpl; lia|]. split.
      - intros d e [E|[]]. injection E as _ <-. auto.
      - intros opts e [E|[]]. discriminate. }
  destruct (amxxpc (plugin_options config filePath destDir) w1) as [[r|e2] w2];
    cbn [trace result].
  - pose proof (report_is_log filePath destDir r) as Hl.
    split; [|split; [|split]].
    + repeat constructor. eapply Forall_impl; [|exact Hl]. now intros [].
    + simpl. now rewrite (compiler_calls_logs _ Hl).
    + intros d e [E|[E|Hin]]; try discriminate.
      rewrite Forall_forall in Hl. now apply Hl in Hin.
    + intros opts e [E|[E|Hin]]; try discriminate.
      rewrite Forall_forall in Hl. now apply Hl in Hin.
  - split; [repeat constructor|]. split; [simpl; lia|]. split.
    + intros d e [E|[E|[]]]; discriminate.
    + intros opts e [E|[E|[]]]; [discriminate|].
      injection E as _ <-. split; [reflexivity|].
      intros lvl args [E|[E|[]]]; discriminate.
Qed.

(** X4. An empty relative path counts as no path.  Under the mirrored
    rule, when the path of the directory of the script relative to the
    scripts input directory is found empty, [compilePlugin] fails with the
    error of the unresolved path and does nothing; an asset whose relative
    path is found empty is rejected in the same way. *)
Theorem empty_relative_path_is_rejected (filePath : string) (w : World) :
  (flatCompilation (rules config) = false ->
   findRelativePath (castArray (Str (in_scripts (input config))))
                    (pdir (path_parse (path_resolve filePath))) = Some EmptyString ->
   compilePlugin config filePath tt w
   = mkOutcome
       (Throw (mkError ("Cannot find relative path for plugin "
                        ++ dquote ++ filePath ++ dquote)%string))
       tt w [])
  /\ (findRelativePath (castArray (Str (in_assets (input config)))) filePath
      = Some EmptyString ->
      updateAsset config filePath tt w
      = mkOutcome
          (Throw (mkError ("Cannot find relative path for asset "
                           ++ dquote ++ filePath ++ dquote)%string))
          tt w []).
Proof.
  split.
  - intros Hf Hr. rewrite compilePlugin_steps. unfold plugin_destination. cbv zeta.
    now rewrite Hf, Hr.
  - intros Hr. unfold updateAsset. cbv zeta. now rewrite Hr.
Qed.

End PerFile.

(** ** Further properties of the batch build *)

Section WholeBuild.
Context `{Host}.
Variable config : IProjectConfig.

Lemma compiler_calls_none (t : list Event) : Forall not_compile t -> compiler_calls t = 0.
Proof.
  induction 1 as [|e t He _ IH]; simpl; [reflexivity|].
  destruct e; simpl in *; tauto.
Qed.

Lemma buildAssets_no_compile : emits not_compile (buildAssets config).
Proof.
  unfold buildAssets. destruct (negb _); [apply emits_ret|].
  apply buildDir_events; [intro; exact I|]. intro f. apply updateAsset_no_compile.
Qed.

Lemma buildInclude_no_compile : emits not_compile (buildInclude config).
Proof.
  apply buildDir_events; [intro; exact I|]. intro f. apply updateInclude_no_compile.
Qed.

(** Every event of the loop of [buildSrc] is the invocation of the
    callback on a file of the batch or an event of the per-file operation
    on such a file. *)
Lemma src_loop_events options files b w ev :
  In ev (trace (forEach files
                  (fun match_ => emit (EvInvoke match_) ;; src_callback config options match_)
                  b w)) ->
  exists f, In f files
            /\ (ev = EvInvoke f \/ exists w', In ev (trace (updatePlugin config f tt w'))).
Proof.
  revert b w; induction files as [|f files IH]; intros b w; [intros []|].
  rewrite src_loop_cons, (bind_step _ _ _ _ _ _ _ _ (src_turn config options f b w)).
  intros Hin.
  assert (Hcases :
            In ev (EvInvoke f :: trace (updatePlugin config f tt w))
            \/ exists b', In ev (trace (forEach files
                  (fun match_ => emit (EvInvoke match_) ;; src_callback config options match_)
                  b' (world (updatePlugin config f tt w))))).
  { match type of Hin with
    | In _ (trace (match ?R with _ => _ end)) => destruct R
    end; cbv zeta in Hin; cbn [trace] in Hin; [|now left].
    apply in_app_or in Hin as [Hin|Hin]; [now left | right; eauto]. }
  destruct Hcases as [[E|Hin']|[b' Hin']].
  - exists f. split; [now left | now left].
  - exists f. split; [now left | right; eauto].
  - destruct (IH _ _ Hin') as (f' & Hf & Hev). exists f'. split; [now right | exact Hev].
Qed.

(** X5. Every call of the compiler made by [buildSrc] compiles a script
    of the scan, with the executable of the configured compiler directory
    and the include directories in this order: the [include] directory of
    the compiler, the include directories of the configuration, the include
    input directory. *)
Theorem buildSrc_compiles_matched_scripts (options : BuildOptions) (w : World)
    (opts : AMXPCOptions) (r : Result AMXPCResult) :
  In (EvAmxxpc opts r) (trace (buildSrc config options tt w)) ->
  exists f,
    In f (matched_scripts config w)
    /\ path opts = path_resolve f
    /\ compiler opts = path_join (dir (compiler_ config)) (executable (compiler_ config))
    /\ includeDir opts
       = path_join (dir (compiler_ config)) "include"
         :: include config ++ [in_include (input config)].
Proof.
  rewrite buildSrc_loop. cbv zeta. cbn [trace]. intros Hin.
  apply src_loop_events in Hin as (f & Hf & [E | (w' & Hin)]); [discriminate|].
  exists f. split; [exact Hf|].
  rewrite updatePlugin_steps in Hin. cbv zeta in Hin.
  assert (Hc : In (EvAmxxpc opts r)
                  (trace (compilePlugin config f tt (world (updateScript config f tt w'))))).
  { pose proof (no_compile_in _ opts r (updateScript_no_compile config f tt w')) as Hn.
    destruct (result (updateScript config f tt w')); cbn [trace] in Hin;
      [|contradiction].
    apply in_app_or in Hin as [Hin|Hin]; [contradiction | exact Hin]. }
  destruct (compilePlugin_call config f _ opts r Hc) as (destDir & _ & -> & _).
  auto.
Qed.

(** X6. A failure of the assets or of the include files rejects [build]
    with that error, whatever [ignoreErrors] is: nothing is done after the
    failing step, no script is touched and the compiler is not called. *)
Theorem build_aborts_on_sync_failure (options : BuildOptions) (w : World) (e : JsError) :
  let oA := buildAssets config tt w in
  let oI := buildInclude config tt (world oA) in
  (result oA = Throw e ->
   build config options tt w = mkOutcome (Throw e) tt (world oA) (start_line :: trace oA)
   /\ compiler_calls (trace (build config options tt w)) = 0)
  /\ (result oA = Ok tt -> result oI = Throw e ->
      build config options tt w
      = mkOutcome (Throw e) tt (world oI) (start_line :: trace oA ++ trace oI)
      /\ compiler_calls (trace (build config options tt w)) = 0).
Proof.
  cbv zeta. rewrite build_steps. cbv zeta.
  pose proof (compiler_calls_none _ (buildAssets_no_compile tt w)) as CA.
  pose proof (compiler_calls_none _
                (buildInclude_no_compile tt (world (buildAssets config tt w)))) as CI.
  split.
  - intros ->. split; [reflexivity|]. cbn [trace]. unfold start_line.
    cbn [compiler_calls]. exact CA.
  - intros -> ->. split; [reflexivity|]. cbn [trace]. unfold start_line.
    cbn [compiler_calls]. now rewrite compiler_calls_app, CA, CI.
Qed.

(** X7. With [ignoreErrors], [build] returns exactly when the assets and
    the include files are synced without failure: no failure of a script
    can reject it. *)
Theorem tolerant_build_returns_iff_synced (options : BuildOptions) (w : World) :
  truthy_flag (ignoreErrors options) = true ->
  let oA := buildAssets config tt w in
  let oI := buildInclude config tt (world oA) in
  result (build config options tt w) = Ok tt
  <-> result oA = Ok tt /\ result oI = Ok tt.
Proof.
  intros Hi. cbv zeta. rewrite build_steps. cbv zeta.
  destruct (result (buildAssets config tt w)) as [[]|eA]; cbn [result].
  2:{ split; [discriminate | now intros [? _]]. }
  destruct (result (buildInclude config tt _)) as [[]|eI]; cbn [result].
  2:{ split; [discriminate | now intros [_ ?]]. }
  rewrite buildSrc_result, Hi. cbn [result]. tauto.
Qed.

Lemma split_after (l1 l2 pre post : list Event) (x : Event) :
  l1 ++ l2 = pre ++ x :: post -> ~ In x l1 -> exists mid, pre = l1 ++ mid.
Proof.
  revert pre; induction l1 as [|a l1 IH]; intros pre E Hn; [now exists pre|].
  destruct pre as [|p pre]; simpl in E.
  - injection E as -> _. exfalso. apply Hn. now left.
  - injection E as -> E.
    destruct (IH pre E) as [mid ->]; [intros Hin; apply Hn; now right|].
    now exists mid.
Qed.

(** X8. [build] calls the compiler only after the assets and the include
    files have all been synced: everything [buildAssets] and
    [buildInclude] do comes before the first call of the compiler. *)
Theorem build_syncs_before_compiling (options : BuildOptions) (w : World)
    (pre post : list Event) (opts : AMXPCOptions) (r : Result AMXPCResult) :
  let oA := buildAssets config tt w in
  let oI := buildInclude config tt (world oA) in
  trace (build config options tt w) = pre ++ EvAmxxpc opts r :: post ->
  result oA = Ok tt /\ result oI = Ok tt
  /\ exists mid, pre = start_line :: trace oA ++ trace oI ++ mid.
Proof.
  cbv zeta. rewrite build_steps. cbv zeta.
  pose proof (no_compile_in _ opts r (buildAssets_no_compile tt w)) as NA.
  pose proof (no_compile_in _ opts r
                (buildInclude_no_compile tt (world (buildAssets config tt w)))) as NI.
  assert (Hno : forall t, ~ In (EvAmxxpc opts r) t ->
                  start_line :: t = pre ++ EvAmxxpc opts r :: post -> False).
  { intros t Hn E. apply Hn.
    assert (Hin : In (EvAmxxpc opts r) (start_line :: t))
      by (rewrite E; apply in_elt).
    destruct Hin as [E'|Hin]; [discriminate | exact Hin]. }
  destruct (result (buildAssets config tt w)) as [[]|eA]; cbn [trace].
  2:{ intros E. now apply Hno in E. }
  destruct (result (buildInclude config tt _)) as [[]|eI]; cbn [trace].
  2:{ intros E. apply Hno in E; [easy|]. intros Hin.
      apply in_app_or in Hin as [?|?]; contradiction. }
  intros E. split; [reflexivity|]. split; [reflexivity|].
  assert (E' : (start_line :: trace (buildAssets config tt w)
                  ++ trace (buildInclude config tt (world (buildAssets config tt w))))
               ++ match result (buildSrc config options tt
                           (world (buildInclude config tt (world (buildAssets config tt w)))))
                  with
                  | Ok b =>
                      trace (buildSrc config options tt
                           (world (buildInclude config tt (world (buildAssets config tt w)))))
                      ++ [if b then success_line else errors_line]
                  | Throw _ =>
                      trace (buildSrc config options tt
                           (world (buildInclude config tt (world (buildAssets config tt w)))))
                  end
               = pre ++ EvAmxxpc opts r :: post).
  { rewrite <- E. destruct (result (buildSrc _ _ _ _)); cbn [trace app];
      now rewrite <- !app_assoc. }
  apply split_after in E' as [mid ->].
  - exists mid. cbn [app]. now rewrite <- app_assoc.
  - intros [E''|Hin]; [discriminate|].
    apply in_app_or in Hin as [?|?]; contradiction.
Qed.

(** X9. A scan without match is a batch that succeeds: [buildDir] never
    calls its callback and changes nothing, [buildSrc] returns [true]
    whatever [ignoreErrors] is, and a [build] whose three scans are empty
    logs its first line and the success line and nothing else. *)
Theorem empty_scan_succeeds (options : BuildOptions) (w : World) :
  let scan d pattern := globule_find (map (fun d' => path_join d' pattern) (castArray (Str d))) w in
  (forall L baseDir pattern (cb : string -> M L unit) (l : L),
     globule_find (map (fun d => path_join d pattern) (castArray baseDir)) w = [] ->
     buildDir baseDir pattern cb l w = mkOutcome (Ok tt) l w [])
  /\ (matched_scripts config w = [] ->
      buildSrc config options tt w = mkOutcome (Ok true) tt w [])
  /\ (scan (in_assets (input config)) ASSETS_PATH_PATTERN = [] ->
      scan (in_include (input config)) INCLUDE_PATH_PATTERN = [] ->
      scan (in_scripts (input config)) SCRIPTS_PATH_PATTERN = [] ->
      build config options tt w = mkOutcome (Ok tt) tt w [start_line; success_line]).
Proof.
  cbv zeta.
  assert (Hdir : forall L baseDir pattern (cb : string -> M L unit) (l : L),
     globule_find (map (fun d => path_join d pattern) (castArray baseDir)) w = [] ->
     buildDir baseDir pattern cb l w = mkOutcome (Ok tt) l w []).
  { intros L baseDir pattern cb l E. now rewrite buildDir_loop, E. }
  assert (Hsrc : matched_scripts config w = [] ->
                 buildSrc config options tt w = mkOutcome (Ok true) tt w []).
  { intros E. now rewrite buildSrc_loop, E. }
  split; [exact Hdir|]. split; [exact Hsrc|].
  intros EA EI ES. rewrite build_steps. cbv zeta.
  assert (HA : buildAssets config tt w = mkOutcome (Ok tt) tt w []).
  { unfold buildAssets. destruct (negb _); [reflexivity | now apply Hdir]. }
  rewrite HA. cbn [result world trace].
  assert (HI : buildInclude config tt w = mkOutcome (Ok tt) tt w []) by now apply Hdir.
  rewrite HI. cbn [result world trace].
  rewrite (Hsrc ES). reflexivity.
Qed.

End WholeBuild.

(** ** Further properties of the log and of the watch mode *)

Section LogAndWatch.
Context `{Host}.
Variable config : IProjectConfig.

Lemma sync_outcome_info src d dest line w :
  (exists args, In (EvLog LInfo args) (trace (sync_outcome src d dest line w)))
  <-> result (sync_outcome src d dest line w) = Ok tt.
Proof.
  unfold sync_outcome.
  destruct (mkdirp d w) as [[[]|e1] w1]; cbn [trace result].
  2:{ split; [intros (args & [E|[]]); discriminate | discriminate]. }
  destruct (copyFile src dest None w1) as [[[]|e2] w2]; cbn [trace result].
  - split; [reflexivity|]. intros _. exists line. right. right. now left.
  - split; [intros (args & [E|[E|[]]]); discriminate | discriminate].
Qed.

Lemma report_no_success_among_messages rel ms args :
  ~ In (EvLog LSuccess args) (map (message_event rel) ms).
Proof.
  intros Hin. apply in_map_iff in Hin as (m & E & _).
  destruct (message_event_level rel m) as [args' E'].
  rewrite E' in E. now destruct (type m).
Qed.

(** X10. The line that reports a file as updated or compiled is logged
    exactly when the operation succeeds: the info line of an include, of an
    asset and of a script (when a scripts output directory is configured),
    the success line of a compilation. *)
Theorem report_line_iff_success (filePath : string) (w : World) :
  ((exists args, In (EvLog LInfo args) (trace (updateInclude config filePath tt w)))
   <-> result (updateInclude config filePath tt w) = Ok tt)
  /\ ((exists args, In (EvLog LInfo args) (trace (updateAsset config filePath tt w)))
      <-> result (updateAsset config filePath tt w) = Ok tt)
  /\ (truthy_string (out_scripts (output_ config)) = true ->
      ((exists args, In (EvLog LInfo args) (trace (updateScript config filePath tt w)))
       <-> result (updateScript config filePath tt w) = Ok tt))
  /\ ((exists args, In (EvLog LSuccess args) (trace (compilePlugin config filePath tt w)))
      <-> result (compilePlugin config filePath tt w) = Ok tt).
Proof.
  split; [|split; [|split]].
  - unfold updateInclude. cbv zeta. rewrite sync_steps. apply sync_outcome_info.
  - unfold updateAsset. cbv zeta.
    destruct (findRelativePath _ _) as [[|c rel]|]; cbn [negb truthy_string].
    + split; [intros (args & []) | discriminate].
    + rewrite sync_steps. apply sync_outcome_info.
    + split; [intros (args & []) | discriminate].
  - intros Hs. unfold updateScript. rewrite Hs. cbn [negb]. cbv zeta.
    rewrite sync_steps. apply sync_outcome_info.
  - rewrite compilePlugin_steps.
    destruct (plugin_destination config filePath) as [destDir|e0]; cbn [trace result].
    2:{ split; [intros (args & []) | discriminate]. }
    destruct (mkdirp destDir w) as [[[]|e1] w1]; cbn [trace result].
    2:{ split; [intros (args & [E|[]]); discriminate | discriminate]. }
    destruct (amxxpc (plugin_options config filePath destDir) w1) as [[r|e2] w2];
      cbn [trace result].
    2:{ split; [intros (args & [E|[E|[]]]); discriminate | discriminate]. }
    unfold plugin_report. cbv zeta. destruct (success r); cbn [fst snd].
    + split; [reflexivity|]. intros _. eexists. right. right.
      apply in_or_app. right. left. reflexivity.
    + split; [|discriminate]. intros (args & [E|[E|Hin]]); try discriminate.
      now apply report_no_success_among_messages in Hin.
Qed.

Lemma add_listener_last (ws : list Watcher) (x : Watcher) l :
  add_listener (ws ++ [x]) (length ws) l
  = ws ++ [mkWatcher (watched x) (watch_options x) (listeners x ++ [l])].
Proof. induction ws as [|y ws IH]; simpl; [reflexivity | now rewrite IH]. Qed.

(** [watchDir], step by step. *)
Lemma watchDir_steps baseDir pattern cb (ws : list Watcher) w :
  watchDir baseDir pattern cb ws w
  = mkOutcome (Ok tt) (ws ++ [dir_watcher baseDir pattern cb]) w [].
Proof.
  unfold watchDir, dir_watcher. cbv zeta.
  unfold bind, chokidar_watch, watcher_on. cbn [result locals world trace].
  rewrite !add_listener_last. reflexivity.
Qed.

(** [watch], step by step. *)
Lemma watch_steps (ws : list Watcher) w :
  watch config ws w
  = mkOutcome (Ok tt)
      (ws
       ++ (if truthy_string (in_assets (input config))
           then [dir_watcher (Str (in_assets (input config))) ASSETS_PATH_PATTERN
                   (fun filePath => updateAsset config filePath)]
           else [])
       ++ [dir_watcher (Str (in_include (input config))) INCLUDE_PATH_PATTERN
             (fun filePath => updateInclude config filePath);
           dir_watcher (Str (in_scripts (input config))) SCRIPTS_PATH_PATTERN
             (fun filePath => updatePlugin config filePath)])
      w [].
Proof.
  unfold watch.
  assert (EA : watchAssets config ws w
               = mkOutcome (Ok tt)
                   (ws ++ if truthy_string (in_assets (input config))
                          then [dir_watcher (Str (in_assets (input config)))
                                  ASSETS_PATH_PATTERN
                                  (fun filePath => updateAsset config filePath)]
                          else [])
                   w []).
  { unfold watchAssets. destruct (truthy_string _); cbn [negb].
    - apply watchDir_steps.
    - unfold ret. now rewrite app_nil_r. }
  rewrite (bind_step _ _ _ _ _ _ _ _ EA). cbv zeta.
  unfold watchInclude, watchSrc.
  rewrite (bind_step _ _ _ _ _ _ _ _ (watchDir_steps _ _ _ _ w)). cbv zeta.
  rewrite watchDir_steps. cbn [result locals world trace app].
  now rewrite <- !app_assoc.
Qed.

(** X11. [watch] processes no file when it starts: it only creates one
    watcher per input directory, after those that exist, in the order
    assets, include files, scripts, each on the pattern of its directory,
    ignoring the files already there, with the interval of 300, and with
    one listener for added files and one for changed files; without an
    assets input directory no assets watcher is created. *)
Theorem watch_setup (ws : list Watcher) (w : World) :
  let o := watch config ws w in
  result o = Ok tt /\ world o = w /\ trace o = []
  /\ exists created,
      locals o = ws ++ created
      /\ map watched created
         = (if truthy_string (in_assets (input config))
            then [[path_join (in_assets (input config)) ASSETS_PATH_PATTERN]]
            else [])
           ++ [[path_join (in_include (input config)) INCLUDE_PATH_PATTERN];
               [path_join (in_scripts (input config)) SCRIPTS_PATH_PATTERN]]
      /\ Forall (fun x =>
                   watch_options x = {| ignoreInitial := true; interval := 300 |}
                   /\ map fst (listeners x) = [OnAdd; OnChange]) created.
Proof.
  cbv zeta. rewrite watch_steps. cbn [result locals world trace].
  repeat (split; [reflexivity|]).
  eexists. split; [reflexivity|].
  destruct (truthy_string (in_assets (input config))); split;
    try reflexivity; repeat constructor.
Qed.

Lemma dir_watcher_listens baseDir pattern cb :
  listens_with (dir_watcher baseDir pattern cb)
    (map (fun d => path_join d pattern) (castArray baseDir)) cb.
Proof.
  split; [reflexivity|]. split; [reflexivity|].
  intros name listener [E|[E|[]]] filePath w'; injection E as _ <-;
    unfold updateFn, catch_, try_catch, logged_failure;
    destruct (cb filePath tt w') as [[[]|e] [] w'' t]; cbn [result world trace];
    now rewrite ?app_nil_r.
Qed.

(** X12. No listener bound by [watch] is ever rejected, and each runs the
    operation of its own directory.  The watchers [watch] creates are, in
    this order, the watcher of the assets input directory (when one is
    configured), whose listeners run [updateAsset], the watcher of the
    include input directory, whose listeners run [updateInclude], and the
    watcher of the scripts input directory, whose listeners run
    [updatePlugin].  On every file and in every world a listener does what
    its operation does and is fulfilled; when the operation fails, it logs
    the message of the error at the error level after what the operation
    did. *)
Theorem watch_listeners_never_reject (ws : list Watcher) (w : World) :
  Forall2 (fun x expected => listens_with x (fst expected) (snd expected))
    (skipn (length ws) (locals (watch config ws w)))
    ((if truthy_string (in_assets (input config))
      then [([path_join (in_assets (input config)) ASSETS_PATH_PATTERN],
             updateAsset config)]
      else [])
     ++ [([path_join (in_include (input config)) INCLUDE_PATH_PATTERN],
          updateInclude config);
         ([path_join (in_scripts (input config)) SCRIPTS_PATH_PATTERN],
          updatePlugin config)]).
Proof.
  rewrite watch_steps. cbn [locals].
  rewrite skipn_app, Nat.sub_diag, skipn_all. cbn [skipn app].
  destruct (truthy_string (in_assets (input config))); cbn [app];
    repeat (apply Forall2_cons;
            [cbn [fst snd]; exact (dir_watcher_listens (Str _) _ _)|]);
    apply Forall2_nil.
Qed.

End LogAndWatch.

(** ** The further properties on the concrete host *)

Import Variants.

Lemma updatePlugin_copy_then_compile_witness :
  compiler_calls
    (@trace host _ _ (@updatePlugin host (config true) "src/scripts/missing.sma" tt project))
  = 0
  /\ is_ok (@result host _ _
       (@updatePlugin host (config true) "src/scripts/missing.sma" tt project)) = false
  /\ @result host _ _ (@updatePlugin host (config true) "src/scripts/a.sma" tt project)
     = Ok tt.
Proof.
  destruct (@updatePlugin_copy_then_compile host (config true)
              "src/scripts/missing.sma" project) as (Hfail & _).
  destruct (@updatePlugin_copy_then_compile host (config true)
              "src/scripts/a.sma" project) as (_ & Hok).
  destruct (Hfail _ eq_refl) as (E & Hc).
  destruct (Hok eq_refl) as (Hr & _).
  split; [exact Hc|]. split; [rewrite E | rewrite Hr]; vm_compute; reflexivity.
Defined.

Lemma updatePlugin_without_scripts_output_witness :
  @updatePlugin host config_no_copy "src/scripts/a.sma" tt project
  = @compilePlugin host config_no_copy "src/scripts/a.sma" tt project
  /\ @result host _ _ (@updatePlugin host config_no_copy "src/scripts/a.sma" tt project)
     = Ok tt.
Proof.
  destruct (@updatePlugin_without_scripts_output host config_no_copy
              "src/scripts/a.sma" project eq_refl) as (_ & E).
  split; [exact E | rewrite E; vm_compute; reflexivity].
Defined.

(** Under the mirrored rule, [a.sma], which lies directly in the scripts
    input directory, is not compiled. *)
Lemma empty_relative_path_is_rejected_witness :
  is_ok (@result loose_host _ _
     (@compilePlugin loose_host (config false) "src/scripts/a.sma" tt project)) = false
  /\ compiler_calls (@trace loose_host _ _
       (@compilePlugin loose_host (config false) "src/scripts/a.sma" tt project)) = 0.
Proof.
  destruct (@empty_relative_path_is_rejected loose_host (config false)
              "src/scripts/a.sma" project) as (Hc & _).
  rewrite (Hc eq_refl eq_refl). split; reflexivity.
Defined.

Lemma buildSrc_compiles_matched_scripts_witness :
  exists f,
    In f ["src/scripts/a.sma"; "src/scripts/b.sma"; "src/scripts/maps/de_dust.sma"]
    /\ path a_options = @path_resolve host f
    /\ includeDir a_options = [".compiler/include"; "src/include"].
Proof.
  assert (Hin : In (EvAmxxpc a_options (Ok a_result))
                  (@trace host _ _ (@buildSrc host (config true) tolerant tt project))).
  { vm_compute. do 5 right. left. reflexivity. }
  destruct (@buildSrc_compiles_matched_scripts host (config true) tolerant project
              a_options (Ok a_result) Hin) as (f & Hf & Hp & _ & Hi).
  exists f. split; [exact Hf|]. split; [exact Hp | exact Hi].
Defined.

(** The assets cannot be written: [build] is rejected although
    [ignoreErrors] is set, and compiles nothing. *)
Lemma build_aborts_on_sync_failure_witness :
  @result denied_host _ _ (@build denied_host (config true) tolerant tt project)
  = Throw denied
  /\ compiler_calls
       (@trace denied_host _ _ (@build denied_host (config true) tolerant tt project)) = 0.
Proof.
  destruct (@build_aborts_on_sync_failure denied_host (config true) tolerant project denied)
    as (Ha & _).
  destruct (Ha eq_refl) as (E & Hc).
  split; [rewrite E; reflexivity | exact Hc].
Defined.

Lemma tolerant_build_returns_iff_synced_witness :
  @result host _ _ (@build host (config true) tolerant tt project) = Ok tt.
Proof.
  apply (@tolerant_build_returns_iff_synced host (config true) tolerant project eq_refl).
  split; vm_compute; reflexivity.
Defined.

Lemma build_syncs_before_compiling_witness :
  exists mid,
    firstn 14 (@trace host _ _ (@build host (config true) tolerant tt project))
    = start_line
      :: @trace host _ _ (@buildAssets host (config true) tt project)
      ++ @trace host _ _
           (@buildInclude host (config true) tt
              (@world host _ _ (@buildAssets host (config true) tt project)))
      ++ mid.
Proof.
  destruct (@build_syncs_before_compiling host (config true) tolerant project
              (firstn 14 (@trace host _ _ (@build host (config true) tolerant tt project)))
              (skipn 15 (@trace host _ _ (@build host (config true) tolerant tt project)))
              a_options (Ok a_result))
    as (_ & _ & Hmid).
  - vm_compute. reflexivity.
  - exact Hmid.
Defined.

(** A project without any input file builds at once. *)
Lemma empty_scan_succeeds_witness :
  @build host (config true) strict tt stray_project
  = @mkOutcome host _ _ (Ok tt) tt stray_project [start_line; success_line].
Proof.
  destruct (@empty_scan_succeeds host (config true) strict stray_project) as (_ & _ & Hb).
  apply Hb; vm_compute; reflexivity.
Defined.

(** The watchers of the concrete project, and the listener of the scripts
    watcher on [b.sma], which fails to compile: the failure is logged and
    the listener is fulfilled. *)
Lemma watch_listeners_never_reject_witness :
  @locals host _ _ (@watch host (config true) [] project)
  = [ @dir_watcher host (Str "assets") "**/*.*" (@updateAsset host (config true));
      @dir_watcher host (Str "src/include") "**/*.inc" (@updateInclude host (config true));
      @dir_watcher host (Str "src/scripts") "**/*.sma" (@updatePlugin host (config true)) ]
  /\ forall name listener,
      In (name, listener)
         (@listeners host
            (@dir_watcher host (Str "src/scripts") "**/*.sma"
               (@updatePlugin host (config true)))) ->
      @result host _ _ (listener "src/scripts/b.sma" tt project) = Ok tt
      /\ last (@trace host _ _ (listener "src/scripts/b.sma" tt project)) start_line
         = EvLog LError [AStr (message b_failure)].
Proof.
  split; [reflexivity|].
  pose proof (@watch_listeners_never_reject host (config true) [] project) as Hw.
  change (skipn _ (@locals host _ _ (@watch host (config true) [] project)))
    with [ @dir_watcher host (Str "assets") "**/*.*" (@updateAsset host (config true));
           @dir_watcher host (Str "src/include") "**/*.inc"
             (@updateInclude host (config true));
           @dir_watcher host (Str "src/scripts") "**/*.sma"
             (@updatePlugin host (config true)) ] in Hw.
  cbn [truthy_string in_assets input config app] in Hw.
  apply Forall2_cons_iff in Hw as [_ Hw].
  apply Forall2_cons_iff in Hw as [_ Hw].
  apply Forall2_cons_iff in Hw as [(_ & _ & Hl) _].
  intros name listener Hin.
  rewrite (Hl name listener Hin "src/scripts/b.sma" project).
  split; vm_compute; reflexivity.
Defined.
